(** * The multipart/form-data decoder of [server/routes.ts]

    A shallow embedding of [uploadMiddleware] (routes.ts, lines 81-153) and
    of the JavaScript string primitives it is written with, followed by the
    properties of the decoder.

    JavaScript strings are sequences of UTF-16 code units; a code unit is a
    number below 65536, kept here as an [N].  The middleware accumulates the
    request body in the string [data] ([data += chunk], which reads each
    chunk of bytes as UTF-8) and parses it when the ['end'] event fires. *)

From Stdlib Require Import NArith ZArith Ascii String List Lia.
From stdpp Require Import base option list gmap.

Local Open Scope N_scope.
Local Open Scope nat_scope.

(** ** JavaScript strings *)

Module JS.

Abbreviation str := (list N).

(** An ASCII literal as a JavaScript string. *)
Definition lit (s : string) : str :=
  map N_of_ascii (list_ascii_of_string s).

Definition CR : N := 13%N.
Definition LF : N := 10%N.
Definition QUOTE : N := 34%N.
Definition SEMI : N := 59%N.

(** The line terminator CR LF and the blank-line separator CR LF CR LF. *)
Definition CRLF : str := [CR; LF].
Definition CRLFCRLF : str := [CR; LF; CR; LF].

(** [startsWith s p]: [p] is a prefix of [s]. *)
Fixpoint startsWith (s p : str) {struct p} : bool :=
  match p, s with
  | [], _ => true
  | a :: p', b :: s' => N.eqb a b && startsWith s' p'
  | _ :: _, [] => false
  end.

(** [s.includes(sub)]. *)
Fixpoint includes (s sub : str) : bool :=
  startsWith s sub ||
  match s with
  | [] => false
  | _ :: s' => includes s' sub
  end.

(** Position of the first occurrence of [sub] in [s]. *)
Fixpoint find_first (s sub : str) : option nat :=
  if startsWith s sub then Some 0
  else match s with
       | [] => None
       | _ :: s' => S <$> find_first s' sub
       end.

(** Position of the last occurrence of [sub] in [s]. *)
Fixpoint find_last (s sub : str) : option nat :=
  match s with
  | [] => if startsWith s sub then Some 0 else None
  | _ :: s' =>
      match find_last s' sub with
      | Some i => Some (S i)
      | None => if startsWith s sub then Some 0 else None
      end
  end.

(** [s.indexOf(sub)] and [s.lastIndexOf(sub)]: -1 when there is none. *)
Definition indexOf (s sub : str) : Z :=
  match find_first s sub with Some i => Z.of_nat i | None => (-1)%Z end.

Definition lastIndexOf (s sub : str) : Z :=
  match find_last s sub with Some i => Z.of_nat i | None => (-1)%Z end.

(** [s.substring(a, b)]: both indices are clamped to [0, length] and
    swapped when [a > b]. *)
Definition substring (s : str) (a b : Z) : str :=
  let len := Z.of_nat (length s) in
  let a' := Z.min (Z.max a 0) len in
  let b' := Z.min (Z.max b 0) len in
  let from := Z.min a' b' in
  let to := Z.max a' b' in
  take (Z.to_nat (to - from)) (drop (Z.to_nat from) s).

(** [s.split(sep)] for a non-empty [sep]: the occurrences of [sep] are
    found from the left and do not overlap.  [skip] counts the code units
    of a separator that are still to be passed over; the head of the
    result is the segment being read. *)
Fixpoint split_go (sep : str) (skip : nat) (s : str) : list str :=
  match s with
  | [] => [[]]
  | c :: s' =>
      match skip with
      | S k => split_go sep k s'
      | O =>
          if startsWith s sep then [] :: split_go sep (length sep - 1) s'
          else match split_go sep 0 s' with
               | seg :: rest => (c :: seg) :: rest
               | [] => [[c]]
               end
      end
  end.

(** [s.split(sep)]; an empty separator splits into code units. *)
Definition split (s sep : str) : list str :=
  match sep with
  | [] => map (λ c, [c]) s
  | _ :: _ => split_go sep 0 s
  end.

(** [l.join(sep)]. *)
Fixpoint join (l : list str) (sep : str) : str :=
  match l with
  | [] => []
  | [x] => x
  | x :: rest => x ++ sep ++ join rest sep
  end.

(** WhiteSpace and LineTerminator code units, the ones [trim] removes. *)
Definition isWhiteSpace (c : N) : bool :=
  ((9 <=? c) && (c <=? 13) || (c =? 32) || (c =? 160) || (c =? 5760)
   || (8192 <=? c) && (c <=? 8202) || (c =? 8232) || (c =? 8233)
   || (c =? 8239) || (c =? 8287) || (c =? 12288) || (c =? 65279))%N.

Fixpoint trimStart (s : str) : str :=
  match s with
  | [] => []
  | c :: s' => if isWhiteSpace c then trimStart s' else s
  end.

Definition trimEnd (s : str) : str := rev (trimStart (rev s)).

(** [s.trim()]. *)
Definition trim (s : str) : str := trimEnd (trimStart s).

(** Truthiness of a string: only the empty string is falsy. *)
Definition truthy (s : str) : bool :=
  match s with [] => false | _ :: _ => true end.

(** The longest prefix of [s] free of [q], and what follows it. *)
Fixpoint span_not (q : N) (s : str) : str * str :=
  match s with
  | [] => ([], [])
  | c :: s' =>
      if N.eqb c q then ([], s)
      else let '(r, t) := span_not q s' in (c :: r, t)
  end.

(** A quote, one or more code units other than a quote (captured), and a
    quote, anchored at the start of [s].  The greedy class stops at the
    first quote or at the end of the string, so no shorter run can succeed
    where the longest fails. *)
Definition quoted_at (s : str) : option str :=
  match s with
  | c :: s' =>
      if N.eqb c QUOTE then
        match span_not QUOTE s' with
        | (v :: r, d :: _) => Some (v :: r)
        | _ => None
        end
      else None
  | [] => None
  end.

(** [s.match] on the regular expression made of a literal [key] (such as
    [filename=]) followed by a quoted, non-empty, quote-free capture: the
    capture group of the leftmost match. *)
Fixpoint match_quoted (key : str) (s : str) : option str :=
  match (if startsWith s key then quoted_at (drop (length key) s) else None) with
  | Some v => Some v
  | None =>
      match s with
      | [] => None
      | _ :: s' => match_quoted key s'
      end
  end.

(** [Buffer.from(s, 'binary')]: one byte per code unit, its low 8 bits. *)
Definition Buffer_from_binary (s : str) : list N :=
  map (λ c, N.land c 255) s.

(** *** Bytes read as UTF-8

    [buf.toString()], which is what the concatenation of a string and a
    [Buffer] applies to the buffer: the bytes are read as UTF-8, every
    ill-formed sequence (its longest prefix that could start a well-formed
    one, or a single byte) gives U+FFFD, and a code point above U+FFFF
    gives its two surrogates. *)

Definition REPLACEMENT : N := 65533%N.

(** The code units of a code point. *)
Definition code_units (cp : N) : str :=
  if (cp <? 65536)%N then [cp]
  else [(55296 + N.shiftr (cp - 65536) 10)%N;
        (56320 + N.land (cp - 65536) 1023)%N].

(** A sequence under way: how many continuation bytes are still to come,
    the bits read so far, and the range the next byte must be in. *)
Record Pending : Type := mkPending {
  more : nat;
  bits : N;
  low : N;
  high : N
}.

(** A byte that does not continue a sequence: the code units it gives at
    once, and the sequence it opens. *)
Definition lead (b : N) : str * option Pending :=
  if (b <? 128)%N then ([b], None)
  else if ((194 <=? b) && (b <=? 223))%N then
    ([], Some (mkPending 1 (N.land b 31) 128 191))
  else if ((224 <=? b) && (b <=? 239))%N then
    ([], Some (mkPending 2 (N.land b 15)
                 (if (b =? 224)%N then 160 else 128)
                 (if (b =? 237)%N then 159 else 191)))
  else if ((240 <=? b) && (b <=? 244))%N then
    ([], Some (mkPending 3 (N.land b 7)
                 (if (b =? 240)%N then 144 else 128)
                 (if (b =? 244)%N then 143 else 191)))
  else ([REPLACEMENT], None).

Fixpoint utf8_decode (st : option Pending) (bytes : list N) : str :=
  match bytes with
  | [] => match st with None => [] | Some _ => [REPLACEMENT] end
  | b :: rest =>
      match st with
      | None => let '(out, st') := lead b in out ++ utf8_decode st' rest
      | Some p =>
          if ((low p <=? b) && (b <=? high p))%N then
            let cp := (bits p * 64 + N.land b 63)%N in
            match more p with
            | S (S n) => utf8_decode (Some (mkPending (S n) cp 128 191)) rest
            | _ => code_units cp ++ utf8_decode None rest
            end
          else
            let '(out, st') := lead b in
            REPLACEMENT :: out ++ utf8_decode st' rest
      end
  end.

Definition Buffer_toString (buf : list N) : str := utf8_decode None buf.

End JS.

Import JS.

(** ** Objects used as maps

    [files] and [fields] are plain objects ([{}]) filled by assignment
    [o[k] = v].  Their own enumerable properties are what the route handlers
    read ([Object.keys], [Object.values], destructuring), so an object is
    kept as the finite map of its own properties.  The key [__proto__] is
    the accessor inherited from [Object.prototype]: assigning to it never
    creates an own property (a string is ignored, an object becomes the
    prototype). *)

Definition PROTO : str := lit "__proto__".

Definition obj_set {V : Type} (o : gmap str V) (k : str) (v : V) : gmap str V :=
  if decide (k = PROTO) then o else <[k := v]> o.

(** The record stored in [files] for an uploaded file. *)
Module File.
Record t : Type := mk {
  filename : str;
  originalFilename : str;
  size : nat;
  path : str
}.
End File.

(** The two mappings the loop fills. *)
Record Maps : Type := mkMaps {
  files : gmap str File.t;
  fields : gmap str str
}.

Definition no_maps : Maps := {| files := ∅; fields := ∅ |}.

(** The part of the request the middleware reads and writes. *)
Record Request : Type := mkRequest {
  content_type : option str;
  req_body : option (gmap str str);
  req_files : option (gmap str File.t)
}.

(** How the middleware hands over: [next()] with the request as it then
    is, or [res.status(code).json({ message })]. *)
Inductive Outcome : Type :=
  | Next (req : Request)
  | Respond (status : nat) (message : str).

(** ** The host: Node's [crypto], [path] and [fs]

    A world [W] holds the state of the random generator and of the file
    system.  [fs.writeFileSync] throws when it fails; here it returns
    [None]. *)

Class Host (W : Type) : Type := {
  randomBytes_hex : nat → W → str * W;
  path_extname : str → str;
  path_join : str → str → str;
  writeFileSync : str → list N → W → option W
}.

(** What a [try] block evaluates to: a value, or a thrown exception, in both
    cases with the world as the effects so far have left it. *)
Inductive exn : Type :=
  | Error (message : str)
  | TypeError
  | FsError.

Inductive res (W A : Type) : Type :=
  | Ok (a : A) (w : W)
  | Throw (e : exn) (w : W).
Arguments Ok {W A} a w.
Arguments Throw {W A} e w.

Definition M (W A : Type) : Type := W → res W A.

Definition ret {W A : Type} (a : A) : M W A := λ w, Ok a w.
Definition throw {W A : Type} (e : exn) : M W A := λ w, Throw e w.
Definition bind {W A B : Type} (m : M W A) (k : A → M W B) : M W B :=
  λ w, match m w with
       | Ok a w' => k a w'
       | Throw e w' => Throw e w'
       end.

Notation "'let*' x ':=' m 'in' k" := (bind m (λ x, k))
  (at level 10, x name, m at level 100, k at level 200).

(** [for (const x of l) acc = body(acc, x)], stopping at the first throw. *)
Fixpoint for_of {W A S : Type}
    (l : list A) (body : S → A → M W S) (acc : S) : M W S :=
  match l with
  | [] => ret acc
  | x :: l' => let* acc' := body acc x in for_of l' body acc'
  end.

(** ** The middleware *)

Section Middleware.

Context {W : Type} `{Host W}.

(** [uploadsDir], from the closure of [registerRoutes]. *)
Variable uploadsDir : str.

Definition crypto_randomBytes_hex (n : nat) : M W str :=
  λ w, let '(h, w') := randomBytes_hex n w in Ok h w'.

Definition fs_writeFileSync (filepath : str) (buffer : list N) : M W unit :=
  λ w, match writeFileSync filepath buffer w with
       | Some w' => Ok tt w'
       | None => Throw FsError w
       end.

(** The two alternatives of the boundary pattern after [boundary=]: the
    quoted one fills group 1, the unquoted one (one or more code units
    other than a semicolon) fills group 2. *)
Definition boundary_at (s : str) : option (option str * option str) :=
  match quoted_at s with
  | Some v => Some (Some v, None)
  | None =>
      match span_not SEMI s with
      | (c :: r, _) => Some (None, Some (c :: r))
      | _ => None
      end
  end.

(** The groups of the leftmost match of the boundary pattern (line 94). *)
Fixpoint match_boundary (s : str) : option (option str * option str) :=
  match (if startsWith s (lit "boundary=")
         then boundary_at (drop (length (lit "boundary=")) s) else None) with
  | Some g => Some g
  | None =>
      match s with
      | [] => None
      | _ :: s' => match_boundary s'
      end
  end.

(** [a || b] on strings that may be undefined. *)
Definition or_else (a b : option str) : option str :=
  match a with
  | Some (_ :: _) => a
  | _ => b
  end.

(** A possibly undefined string inside a template literal. *)
Definition interpolate (b : option str) : str :=
  match b with
  | Some s => s
  | None => lit "undefined"
  end.

(** The test of line 106: the part is passed over. *)
Definition skipped (part : str) : bool :=
  negb (truthy (trim part)) || includes part (lit "--" ++ CRLF).

(** [bodyContent.substring(0, bodyContent.lastIndexOf(CRLF))], lines 121
    and 140. *)
Definition strip_last (bodyContent : str) : str :=
  substring bodyContent 0 (lastIndexOf bodyContent CRLF).

(** The file branch once the file name is known, lines 115-132: a fresh
    storage name with the extension of the original one, the content
    written as bytes, and the record entered under the original name. *)
Definition save_file (acc : Maps) (originalFilename fileContent : str) : M W Maps :=
  let extension := path_extname originalFilename in
  let* hex := crypto_randomBytes_hex 16 in
  let filename := hex ++ extension in
  let filepath := path_join uploadsDir filename in
  let buffer := Buffer_from_binary fileContent in
  let* _ := fs_writeFileSync filepath buffer in
  ret {| files :=
           obj_set (files acc) originalFilename
             {| File.filename := filename;
                File.originalFilename := originalFilename;
                File.size := length buffer;
                File.path := filepath |};
         fields := fields acc |}.

(** The field branch once the name is known, lines 138-140. *)
Definition set_field (acc : Maps) (fieldName value : str) : Maps :=
  {| files := files acc;
     fields := obj_set (fields acc) fieldName value |}.

(** The body of the loop, lines 106-142. *)
Definition process_part (acc : Maps) (part : str) : M W Maps :=
  if skipped part then ret acc
  else
    match split part CRLFCRLF with
    | [] => throw TypeError
    | headerStr :: bodyParts =>
        let bodyContent := join bodyParts CRLFCRLF in
        if includes headerStr (lit "filename=") then
          match match_quoted (lit "filename=") headerStr with
          | Some originalFilename =>
              save_file acc originalFilename (strip_last bodyContent)
          | None => ret acc
          end
        else
          match match_quoted (lit "name=") headerStr with
          | Some fieldName =>
              ret (set_field acc fieldName (strip_last bodyContent))
          | None => ret acc
          end
    end.

(** The [try] block, lines 93-147, up to the assignments to [req]. *)
Definition parse (ct : option str) (data : str) : M W Maps :=
  match ct ≫= match_boundary with
  | None => throw (Error (lit "No boundary found"))
  | Some (g1, g2) =>
      let boundary := or_else g1 g2 in
      let parts := split data (lit "--" ++ interpolate boundary) in
      for_of parts process_part no_maps
  end.

(** The handler of the ['end'] event, lines 91-152. *)
Definition on_end (req : Request) (data : str) (w : W) : Outcome * W :=
  match parse (content_type req) data w with
  | Ok m w' =>
      (Next {| content_type := content_type req;
               req_body := Some (fields m);
               req_files := Some (files m) |}, w')
  | Throw _ w' => (Respond 400 (lit "Error processing form data"), w')
  end.

(** The listener of ['data'], lines 87-89: the chunk is a [Buffer], and
    adding it to the string reads its bytes as UTF-8. *)
Definition on_data (data : str) (chunk : list N) : str :=
  data ++ Buffer_toString chunk.

(** [data] when ['end'] fires: the empty string of line 86 after the
    chunks of the request, in the order they arrive. *)
Definition request_body (chunks : list (list N)) : str :=
  fold_left on_data chunks [].

(** [uploadMiddleware], lines 81-153, applied to a request whose body,
    once read to its end, is [data]: [request_body] of its chunks. *)
Definition uploadMiddleware (req : Request) (data : str) (w : W) : Outcome * W :=
  match content_type req with
  | Some ct =>
      if includes ct (lit "multipart/form-data") then on_end req data w
      else (Next req, w)
  | None => (Next req, w)
  end.

(** The middleware on the chunks of the request. *)
Definition on_request (req : Request) (chunks : list (list N)) (w : W)
    : Outcome * W :=
  uploadMiddleware req (request_body chunks) w.

End Middleware.

(** ** A host for running the middleware

    The world is the list of files written so far, oldest first, and a
    counter that stands for the random generator; a write fails when the
    path is in [readonly]. *)

Module TestHost.

Record world : Type := mk {
  written : list (str * list N);
  counter : nat;
  readonly : list str
}.

Definition empty : world := {| written := []; counter := 0; readonly := [] |}.

Definition hex_digit (n : nat) : N :=
  N.of_nat (if Nat.ltb n 10 then 48 + n else 87 + n).

(** [n] hexadecimal digits, the last one counting the calls. *)
Definition hex (n : nat) (c : nat) : str :=
  replicate (2 * n - 1) 48%N ++ [hex_digit (c mod 16)].

(** The path without the slashes that end it, and its last component. *)
Fixpoint drop_slashes (s : str) : str :=
  match s with
  | 47%N :: s' => drop_slashes s'
  | _ => s
  end.

Fixpoint up_to_slash (s : str) : str :=
  match s with
  | [] => []
  | c :: s' => if (c =? 47)%N then [] else c :: up_to_slash s'
  end.

Definition last_component (f : str) : str :=
  rev (up_to_slash (drop_slashes (rev f))).

(** [path.extname] of POSIX: the last component of the path from its last
    dot; nothing when the component has no dot, when its last dot comes
    first, and when it is two dots. *)
Definition extname (f : str) : str :=
  let base := last_component f in
  match find_last base [46%N] with
  | Some (S i) => if decide (base = [46%N; 46%N]) then [] else drop (S i) base
  | _ => []
  end.

#[global] Instance host : Host world := {|
  randomBytes_hex n w :=
    (hex n (counter w),
     {| written := written w; counter := S (counter w); readonly := readonly w |});
  path_extname := extname;
  path_join d f := d ++ lit "/" ++ f;
  writeFileSync p b w :=
    if bool_decide (p ∈ readonly w) then None
    else Some {| written := written w ++ [(p, b)];
                 counter := counter w; readonly := readonly w |}
|}.

End TestHost.

(** ** Vocabulary of the statements *)

(** The header block and the body block of a part, as lines 108-109 compute
    them. *)
Definition headerStr_of (part : str) : str := hd [] (split part CRLFCRLF).

Definition bodyContent_of (part : str) : str :=
  join (tl (split part CRLFCRLF)) CRLFCRLF.

(** The header block [h] carries the attribute [key]: somewhere in it stands
    [key], a quote, a non-empty value free of quotes, and a quote. *)
Definition has_attribute (key h : str) : Prop :=
  ∃ pre v post,
    h = pre ++ key ++ QUOTE :: v ++ QUOTE :: post ∧ v ≠ [] ∧ (QUOTE ∉ v).

(** The key under which a part enters [fields], and the one under which it
    enters [files], if the loop body takes it that far. *)
Definition field_key (part : str) : option str :=
  if skipped part then None
  else if includes (headerStr_of part) (lit "filename=") then None
  else match_quoted (lit "name=") (headerStr_of part).

Definition file_key (part : str) : option str :=
  if skipped part then None
  else if includes (headerStr_of part) (lit "filename=")
  then match_quoted (lit "filename=") (headerStr_of part)
  else None.

(** [s.endsWith(p)]. *)
Definition endsWith (s p : str) : bool := startsWith (rev s) (rev p).

(** Stripping one trailing line terminator in the words of the
    specification: a body block that ends with CR LF loses these two code
    units, any other body block is left as it is. *)
Definition strip_one_terminator (b : str) : str :=
  if endsWith b CRLF then take (length b - length CRLF) b else b.

(** ** Well-formed bodies

    The body a client builds from a form (RFC 7578): each part is announced
    by the delimiter, two dashes and the boundary, and the last part is
    followed by the delimiter and two more dashes. *)

Inductive FormPart : Type :=
  | FieldPart (name value : str)
  | FilePart (name filename ctype content : str).

(** The line [Content-Disposition: form-data; name=...], the name quoted. *)
Definition disposition (name : str) : str :=
  lit "Content-Disposition: form-data; name=" ++ QUOTE :: name ++ [QUOTE].

(** The header lines of a part, of which a file part has two. *)
Definition part_lines (p : FormPart) : list str :=
  match p with
  | FieldPart n _ => [disposition n]
  | FilePart n f t _ =>
      [disposition n ++ lit "; filename=" ++ QUOTE :: f ++ [QUOTE];
       lit "Content-Type: " ++ t]
  end.

Definition part_headers (p : FormPart) : str := join (part_lines p) CRLF.

Definition part_content (p : FormPart) : str :=
  match p with
  | FieldPart _ v => v
  | FilePart _ _ _ c => c
  end.

(** What stands between the delimiter that announces a part and the next
    delimiter. *)
Definition segment (p : FormPart) : str :=
  CRLF ++ part_headers p ++ CRLFCRLF ++ part_content p ++ CRLF.

Definition delimiter (boundary : str) : str := lit "--" ++ boundary.

(** What follows the closing delimiter. *)
Definition closing : str := lit "--" ++ CRLF.

Fixpoint encode_after (boundary : str) (ps : list FormPart) : str :=
  match ps with
  | [] => closing
  | p :: ps' => segment p ++ delimiter boundary ++ encode_after boundary ps'
  end.

Definition encode (boundary : str) (ps : list FormPart) : str :=
  delimiter boundary ++ encode_after boundary ps.

(** The names of the field parts and the original names of the file parts,
    in body order. *)
Definition field_names (ps : list FormPart) : list str :=
  omap (λ p, match p with FieldPart n _ => Some n | FilePart _ _ _ _ => None end) ps.

Definition file_names (ps : list FormPart) : list str :=
  omap (λ p, match p with FieldPart _ _ => None | FilePart _ f _ _ => Some f end) ps.

(** A boundary the client may choose: not empty and free of CR. *)
Definition boundary_ok (boundary : str) : Prop := boundary ≠ [] ∧ (CR ∉ boundary).

(** The part is framed by the delimiter: the delimiter occurs in the part
    followed by the delimiter only where that delimiter starts, and the part
    contains no two dashes followed by a line terminator. *)
Definition framed (boundary : str) (p : FormPart) : Prop :=
  find_first (segment p ++ delimiter boundary) (delimiter boundary)
    = Some (length (segment p)) ∧
  includes (segment p) closing = false.

(** A value that can stand between quotes on a header line. *)
Definition quotable (v : str) : Prop := (QUOTE ∉ v) ∧ (CR ∉ v).

(** The names of the part do not disturb its header lines and can be keys:
    they are quotable, the key is not empty and is not [__proto__], and the
    [name] attribute does not contain [filename=]. *)
Definition plain_names (p : FormPart) : Prop :=
  match p with
  | FieldPart n _ =>
      quotable n ∧ includes n (lit "filename=") = false ∧ n ≠ [] ∧ n ≠ PROTO
  | FilePart n f t _ =>
      quotable n ∧ includes n (lit "filename=") = false ∧
      quotable f ∧ f ≠ [] ∧ f ≠ PROTO ∧ (CR ∉ t)
  end.

(** What a well-formed part asks for: a field assigned, or a file saved
    under its original name. *)
Definition store_part {W : Type} `{Host W} (uploadsDir : str)
    (acc : Maps) (p : FormPart) : M W Maps :=
  match p with
  | FieldPart n v => ret (set_field acc n v)
  | FilePart _ f _ c => save_file uploadsDir acc f c
  end.

(** Decoding a well-formed body in the words of the specification: the
    parts are taken in body order; a field part gives its value to its
    name; for a file part a storage name is made of fresh random bytes and
    the extension of the original name, the payload, which is the content
    of the part as it is, is persisted under that name in the uploads
    directory, and the record of the storage name, the original name, the
    size in bytes and the storage path is entered under the original name.
    When a write fails the decode fails, in the world as it then is. *)
Fixpoint decode_as_specified {W : Type} `{Host W} (uploadsDir : str)
    (ps : list FormPart) (acc : Maps) (w : W) : option Maps * W :=
  match ps with
  | [] => (Some acc, w)
  | FieldPart n v :: ps' =>
      decode_as_specified uploadsDir ps'
        {| files := files acc; fields := <[n := v]> (fields acc) |} w
  | FilePart _ f _ payload :: ps' =>
      let '(random, w1) := randomBytes_hex 16 w in
      let storageName := random ++ path_extname f in
      let storagePath := path_join uploadsDir storageName in
      match writeFileSync storagePath payload w1 with
      | None => (None, w1)
      | Some w2 =>
          decode_as_specified uploadsDir ps'
            {| files :=
                 <[f := {| File.filename := storageName;
                           File.originalFilename := f;
                           File.size := length payload;
                           File.path := storagePath |}]> (files acc);
               fields := fields acc |} w2
      end
  end.

(** What the middleware answers when the decode gives [r]. *)
Definition answer_of {W : Type} (req : Request) (r : option Maps * W)
    : Outcome * W :=
  match r with
  | (Some m, w') =>
      (Next {| content_type := content_type req;
               req_body := Some (fields m);
               req_files := Some (files m) |}, w')
  | (None, w') => (Respond 400 (lit "Error processing form data"), w')
  end.

(** The bytes of a request are all below 128. *)
Definition ascii (bytes : list N) : Prop := Forall (λ u, (u < 128)%N) bytes.


(** ** Sample requests *)

Module Sample.

Definition uploads : str := lit "/srv/app/uploads".

Definition XYZ : str := lit "XYZ".

Definition request (ct : str) : Request :=
  {| content_type := Some ct; req_body := None; req_files := None |}.

Definition form_XYZ : Request :=
  request (lit "multipart/form-data; boundary=XYZ").

(** The groups of the boundary pattern on the content type of [form_XYZ]:
    the unquoted alternative has matched. *)
Definition groups_XYZ : option str * option str := (None, Some XYZ).

Definition without_boundary : Request := request (lit "multipart/form-data").

Definition title : FormPart := FieldPart (lit "title") (lit "Algoritmi EKG").

(** A file whose content holds a blank line. *)
Definition doc : FormPart :=
  FilePart (lit "file") (lit "doc.pdf") (lit "application/pdf")
    (lit "%PDF-1.4" ++ CRLFCRLF ++ lit "stream").

(** A field whose value has a line that ends with two dashes. *)
Definition note : FormPart :=
  FieldPart (lit "note") (lit "a--" ++ CRLF ++ lit "b").


(** A part with neither attribute. *)
Definition bare : str :=
  CRLF ++ lit "Content-Type: text/plain" ++ CRLFCRLF ++ lit "hello" ++ CRLF.

(** A part whose file name is not quoted. *)
Definition unquoted : str :=
  CRLF ++ disposition (lit "file") ++ lit "; filename=doc.pdf"
    ++ CRLFCRLF ++ lit "data" ++ CRLF.

(** Parts whose body block has no line terminator. *)
Definition unterminated : str :=
  CRLF ++ disposition (lit "x") ++ CRLFCRLF ++ lit "abc".

(** A body whose only part is [unterminated]. *)
Definition unterminated_body : str :=
  delimiter XYZ ++ unterminated ++ delimiter XYZ ++ closing.

Definition unterminated_file : str :=
  CRLF ++ part_headers doc ++ CRLFCRLF ++ lit "abc".

(** A part whose body block goes on after its last line terminator. *)
Definition two_lines : str :=
  CRLF ++ disposition (lit "x") ++ CRLFCRLF ++ lit "ab" ++ CRLF ++ lit "cd".

(** A field named as [x_a] whose value has a line that ends with two
    dashes. *)
Definition x_dashes : FormPart :=
  FieldPart (lit "x") (lit "b--" ++ CRLF ++ lit "c").

(** A file whose content holds a blank line after two dashes. *)
Definition dashed_doc : FormPart :=
  FilePart (lit "file") (lit "doc.pdf") (lit "application/pdf")
    (lit "a--" ++ CRLFCRLF ++ lit "b").


(** The bytes of the body of [title] and [doc], arriving in two chunks. *)
Definition title_doc_chunks : list (list N) :=
  [take 50 (encode XYZ [title; doc]); drop 50 (encode XYZ [title; doc])].

(** A file with bytes above 127: one that starts no sequence of UTF-8, and
    the two bytes of a sequence. *)
Definition scan : FormPart :=
  FilePart (lit "file") (lit "scan.pdf") (lit "application/pdf")
    (lit "%PDF" ++ [255%N; 195%N; 169%N]).

(** A world in which the first file cannot be written. *)
Definition locked : TestHost.world :=
  {| TestHost.written := [];
     TestHost.counter := 0;
     TestHost.readonly :=
       [uploads ++ lit "/" ++ TestHost.hex 16 0 ++ lit ".pdf"] |}.

(** The same world after the random name has been drawn. *)
Definition locked_after : TestHost.world :=
  {| TestHost.written := [];
     TestHost.counter := 1;
     TestHost.readonly := TestHost.readonly locked |}.

End Sample.

(** The [name] attribute of a part. *)
Definition part_name (p : FormPart) : str :=
  match p with
  | FieldPart n _ => n
  | FilePart n _ _ _ => n
  end.

(** The decoding of a well-formed body in the words of the specification:
    when no two parts have the same name, there is one field entry per
    field part and one file entry per file part, and each field has the
    value of its part. *)
Definition decode_rule_as_stated : Prop :=
  ∀ req g B ps (w : TestHost.world),
    content_type req ≫= match_boundary = Some g →
    interpolate (or_else g.1 g.2) = B →
    boundary_ok B →
    Forall (λ p, find_first (segment p ++ delimiter B) (delimiter B)
                 = Some (length (segment p))) ps →
    Forall plain_names ps →
    NoDup (part_name <$> ps) →
    ∃ req' w' flds fls,
      on_end Sample.uploads req (encode B ps) w = (Next req', w') ∧
      req_body req' = Some flds ∧ req_files req' = Some fls ∧
      size flds = length (field_names ps) ∧
      size fls = length (file_names ps) ∧
      ∀ n v, FieldPart n v ∈ ps → flds !! n = Some v.

(** The value of a field in the words of the specification: the body block
    with one trailing line terminator stripped, if it has one. *)
Definition strip_rule_as_stated : Prop :=
  ∀ acc part fieldName (w : TestHost.world),
    skipped part = false →
    includes (headerStr_of part) (lit "filename=") = false →
    match_quoted (lit "name=") (headerStr_of part) = Some fieldName →
    process_part Sample.uploads acc part w =
    Ok (set_field acc fieldName (strip_one_terminator (bodyContent_of part))) w.



(** * Properties *)

(** Closed facts are settled by running the definitions. *)
Ltac run := vm_compute; reflexivity.

(** ** String primitives *)

Section StringFacts.

Implicit Types (s p sub sep x y rest : str) (c : N).

Lemma startsWith_nil s : startsWith s [] = true.
Proof. by destruct s. Qed.

Lemma startsWith_prefix s p : startsWith s p = true ↔ ∃ rest, s = p ++ rest.
Proof.
  revert s; induction p as [|a p IH]; intros s; simpl.
  - split; [intros _; by exists s|done].
  - destruct s as [|b s]; [split; [done|intros [? ?]; done]|].
    rewrite andb_true_iff, N.eqb_eq, IH. split.
    + intros [-> [rest ->]]. eauto.
    + intros [rest Heq]. injection Heq as -> ->. eauto.
Qed.

Lemma startsWith_app p rest : startsWith (p ++ rest) p = true.
Proof. apply startsWith_prefix. eauto. Qed.

(** A window no longer than [s] does not see what follows [s]. *)
Lemma startsWith_within s p rest :
  length p ≤ length s → startsWith (s ++ rest) p = startsWith s p.
Proof.
  revert s; induction p as [|a p IH]; intros s Hlen; [done|].
  destruct s as [|b s]; simpl in *; [lia|].
  rewrite IH by lia. done.
Qed.

Lemma includes_occurs s sub :
  includes s sub = true ↔ ∃ pre post, s = pre ++ sub ++ post.
Proof.
  induction s as [|c s IH]; simpl.
  - rewrite orb_false_r, startsWith_prefix. split.
    + intros [rest ->]. by exists [], rest.
    + intros (pre & post & Heq). destruct pre; [|done]. eauto.
  - rewrite orb_true_iff, startsWith_prefix, IH. split.
    + intros [[rest ->]|(pre & post & ->)].
      * by exists [], rest.
      * by exists (c :: pre), post.
    + intros (pre & post & Heq). destruct pre as [|d pre].
      * left. eauto.
      * right. injection Heq as -> ->. eauto.
Qed.

Lemma includes_cons_false c s sub :
  includes (c :: s) sub = false → includes s sub = false.
Proof. simpl. by intros [_ ?]%orb_false_iff. Qed.

Lemma includes_false_startsWith s sub :
  includes s sub = false → startsWith s sub = false.
Proof. destruct s; simpl; by intros [? _]%orb_false_iff. Qed.

Lemma find_first_occurs s sub i :
  find_first s sub = Some i →
  s = take i s ++ sub ++ drop (i + length sub) s ∧
  ∀ j, j < i → startsWith (drop j s) sub = false.
Proof.
  revert i; induction s as [|c s IH]; intros i; simpl.
  - destruct (startsWith [] sub) eqn:Hs; [|done].
    intros [= <-]. apply startsWith_prefix in Hs as [rest Hs].
    destruct sub; [|done]. split; [done|lia].
  - destruct (startsWith (c :: s) sub) eqn:Hs.
    + intros [= <-]. split; [|lia].
      apply startsWith_prefix in Hs as [rest Hs]. rewrite Hs at 1.
      simpl. f_equal. rewrite Hs, drop_app_length. done.
    + destruct (find_first s sub) as [k|] eqn:Hk; [|done].
      intros [= <-]. destruct (IH k eq_refl) as [Heq Hmin]. split.
      * simpl. by rewrite <- Heq.
      * intros [|j] Hj; [done|]. apply Hmin. lia.
Qed.


Lemma find_last_none s sub :
  find_last s sub = None ↔ includes s sub = false.
Proof.
  induction s as [|c s IH]; simpl.
  - destruct (startsWith [] sub); done.
  - destruct (find_last s sub) as [i|] eqn:Hi.
    + split; [done|]. intros [_ Hf]%orb_false_iff.
      apply IH in Hf. done.
    + destruct IH as [IH _]. rewrite (IH eq_refl), orb_false_r.
      destruct (startsWith (c :: s) sub); done.
Qed.

(** The last occurrence of [sub] in [x ++ sub ++ y] starts at the end of
    [x] when no occurrence starts later. *)
Lemma find_last_app x sub y :
  sub ≠ [] →
  (∀ j, startsWith (drop (S j) (sub ++ y)) sub = false) →
  find_last (x ++ sub ++ y) sub = Some (length x).
Proof.
  intros Hne Hlater. induction x as [|c x IH]; simpl.
  - destruct sub as [|a sub]; [done|]. simpl.
    assert (find_last (sub ++ y) (a :: sub) = None) as ->.
    { apply find_last_none. apply not_true_iff_false.
      intros (pre & post & Heq)%includes_occurs.
      specialize (Hlater (length pre)).
      change (drop (S (length pre)) ((a :: sub) ++ y))
        with (drop (length pre) (sub ++ y)) in Hlater.
      rewrite Heq, drop_app_length in Hlater.
      by rewrite (startsWith_app (a :: sub) post) in Hlater. }
    by rewrite N.eqb_refl, startsWith_app.
  - by rewrite IH.
Qed.

Lemma substring_take s n : substring s 0 (Z.of_nat n) = take n s.
Proof.
  unfold substring.
  assert (Z.min (Z.max 0 0) (Z.of_nat (length s)) = 0%Z) as -> by lia.
  assert (Z.min (Z.max (Z.of_nat n) 0) (Z.of_nat (length s))
          = Z.of_nat (n `min` length s)) as -> by lia.
  rewrite Z.min_l, Z.max_r, Z.sub_0_r, Nat2Z.id by lia.
  change (drop (Z.to_nat 0) s) with s.
  destruct (decide (n ≤ length s)).
  - by rewrite Nat.min_l.
  - rewrite Nat.min_r by lia. by rewrite !take_ge by lia.
Qed.

Lemma substring_minus_one s : substring s 0 (-1) = [].
Proof.
  unfold substring.
  assert (Z.min (Z.max 0 0) (Z.of_nat (length s)) = 0%Z) as -> by lia.
  assert (Z.min (Z.max (-1) 0) (Z.of_nat (length s)) = 0%Z) as -> by lia.
  done.
Qed.

(** *** [split] and [join] *)

Lemma split_go_nonempty sep k s : split_go sep k s ≠ [].
Proof.
  revert k; induction s as [|c s IH]; intros k; simpl; [done|].
  destruct k; [|apply IH].
  destruct (startsWith (c :: s) sep); [done|].
  destruct (split_go sep 0 s); done.
Qed.

Lemma split_go_skip sep x rest :
  split_go sep (length x) (x ++ rest) = split_go sep 0 rest.
Proof. induction x as [|c x IH]; [by destruct rest|done]. Qed.

Lemma includes_false_everywhere s sub j :
  includes s sub = false → startsWith (drop j s) sub = false.
Proof.
  revert j; induction s as [|c s IH]; intros j Hs.
  - rewrite drop_nil. by apply includes_false_startsWith.
  - destruct j; [by apply includes_false_startsWith|].
    apply IH. by eapply includes_cons_false.
Qed.

(** A prefix in which no occurrence of [sep] starts is read into the
    first segment. *)
Lemma split_go_clean_prefix sep x rest :
  (∀ j, j < length x → startsWith (drop j (x ++ rest)) sep = false) →
  split_go sep 0 (x ++ rest) =
  match split_go sep 0 rest with
  | seg :: r => (x ++ seg) :: r
  | [] => [x]
  end.
Proof.
  induction x as [|c x IH]; intros Hclean; simpl.
  - pose proof (split_go_nonempty sep 0 rest).
    destruct (split_go sep 0 rest); done.
  - pose proof (Hclean 0 ltac:(simpl; lia)) as H0. simpl in H0. rewrite H0.
    rewrite IH by (intros j Hj; apply (Hclean (S j)); simpl; lia).
    pose proof (split_go_nonempty sep 0 rest).
    destruct (split_go sep 0 rest); done.
Qed.

Lemma split_go_sep sep rest :
  sep ≠ [] → split_go sep 0 (sep ++ rest) = [] :: split_go sep 0 rest.
Proof.
  destruct sep as [|a sep]; [done|]. intros _.
  change (split_go (a :: sep) 0 ((a :: sep) ++ rest)) with
    (if startsWith ((a :: sep) ++ rest) (a :: sep)
     then [] :: split_go (a :: sep) (length (a :: sep) - 1) (sep ++ rest)
     else match split_go (a :: sep) 0 (sep ++ rest) with
          | seg :: r => (a :: seg) :: r
          | [] => [[a]]
          end).
  rewrite startsWith_app.
  replace (length (a :: sep) - 1) with (length sep) by (simpl; lia).
  by rewrite split_go_skip.
Qed.

Lemma split_go_clean sep x rest :
  sep ≠ [] →
  (∀ j, j < length x → startsWith (drop j (x ++ sep)) sep = false) →
  split_go sep 0 (x ++ sep ++ rest) = x :: split_go sep 0 rest.
Proof.
  intros Hne Hclean. rewrite split_go_clean_prefix.
  - rewrite split_go_sep by done. by rewrite app_nil_r.
  - intros j Hj. rewrite <- (Hclean j Hj).
    rewrite !drop_app_le by lia. rewrite !app_assoc.
    apply startsWith_within. rewrite length_app, length_drop. lia.
Qed.

Lemma split_go_no_occurrence sep s :
  includes s sep = false → split_go sep 0 s = [s].
Proof.
  intros Hs. rewrite <- (app_nil_r s) at 1.
  rewrite split_go_clean_prefix; simpl.
  - by rewrite app_nil_r.
  - intros j _. rewrite app_nil_r. by apply includes_false_everywhere.
Qed.


Lemma join_cons_head c seg r sep :
  join ((c :: seg) :: r) sep = c :: join (seg :: r) sep.
Proof. by destruct r. Qed.

Lemma join_nil_head l sep :
  l ≠ [] → join ([] :: l) sep = sep ++ join l sep.
Proof. by destruct l. Qed.

(** Joining the segments with the separator gives the string back. *)
Lemma join_split_go sep s : sep ≠ [] → join (split_go sep 0 s) sep = s.
Proof.
  intros Hne. remember (length s) as n eqn:Hn.
  revert s Hn. induction (lt_wf n) as [n _ IH]. intros s ->.
  destruct s as [|c s]; [done|].
  destruct (startsWith (c :: s) sep) eqn:Hs.
  - apply startsWith_prefix in Hs as [rest Hs]. rewrite Hs.
    rewrite split_go_sep by done.
    rewrite join_nil_head by apply split_go_nonempty.
    f_equal. apply (IH (length rest)); [|done].
    rewrite Hs, length_app. destruct sep; [done|]. simpl. lia.
  - simpl split_go. rewrite Hs.
    pose proof (split_go_nonempty sep 0 s).
    destruct (split_go sep 0 s) as [|seg r] eqn:Hsplit; [done|].
    rewrite join_cons_head, <- Hsplit. f_equal.
    apply (IH (length s)); [simpl; lia|done].
Qed.

(** *** [trim] *)

Lemma trimStart_nil s : trimStart s = [] ↔ forallb isWhiteSpace s = true.
Proof.
  induction s as [|c s IH]; simpl; [done|].
  destruct (isWhiteSpace c); simpl; [done|]. split; done.
Qed.

Lemma trimStart_head s :
  match trimStart s with
  | [] => True
  | c :: _ => isWhiteSpace c = false
  end.
Proof.
  induction s as [|c s IH]; simpl; [done|].
  destruct (isWhiteSpace c) eqn:Hc; done.
Qed.

(** [!part.trim()] holds exactly of the strings made of white space only,
    the empty one among them. *)
Lemma trim_falsy s :
  truthy (trim s) = false ↔ forallb isWhiteSpace s = true.
Proof.
  assert (truthy (trim s) = false ↔ trim s = []) as ->.
  { destruct (trim s); simpl; split; done. }
  unfold trim, trimEnd. split.
  - intros Hnil. apply trimStart_nil.
    apply (f_equal (@rev N)) in Hnil. rewrite rev_involutive in Hnil.
    simpl in Hnil. apply trimStart_nil in Hnil.
    pose proof (trimStart_head s) as Hhead.
    destruct (trimStart s) as [|c t]; [done|].
    rewrite forallb_forall in Hnil.
    rewrite (Hnil c) in Hhead; [done|].
    apply in_rev. rewrite rev_involutive. by left.
  - intros Hall. apply trimStart_nil in Hall. by rewrite Hall.
Qed.

(** *** Cutting at the last line terminator *)

Lemma strip_last_cut x y :
  includes y CRLF = false → strip_last (x ++ CRLF ++ y) = x.
Proof.
  intros Hy. unfold strip_last, lastIndexOf.
  rewrite find_last_app; [|done|].
  - rewrite substring_take. by rewrite take_app_length.
  - intros [|j]; [done|].
    change (drop (S (S j)) (CRLF ++ y)) with (drop j y).
    by apply includes_false_everywhere.
Qed.

Lemma strip_last_crlf x : strip_last (x ++ CRLF) = x.
Proof. rewrite <- (app_nil_r CRLF). by apply strip_last_cut. Qed.

Lemma strip_last_none b : includes b CRLF = false → strip_last b = [].
Proof.
  intros Hb. unfold strip_last, lastIndexOf.
  apply find_last_none in Hb as ->. apply substring_minus_one.
Qed.

(** *** The attribute patterns *)

Lemma span_not_app q r t :
  q ∉ r → span_not q (r ++ q :: t) = (r, q :: t).
Proof.
  induction r as [|c r IH]; intros Hq; simpl.
  - by rewrite N.eqb_refl.
  - apply not_elem_of_cons in Hq as [Hne Hq].
    destruct (N.eqb_spec c q) as [->|_]; [done|]. by rewrite IH.
Qed.

Lemma span_not_split q s r t :
  span_not q s = (r, t) →
  s = r ++ t ∧ (q ∉ r) ∧ (match t with [] => True | d :: _ => d = q end).
Proof.
  revert r t; induction s as [|c s IH]; intros r t; simpl.
  - intros [= <- <-]. split_and!; [done|apply not_elem_of_nil|done].
  - destruct (N.eqb_spec c q) as [->|Hne].
    + intros [= <- <-]. split_and!; [done|apply not_elem_of_nil|done].
    + destruct (span_not q s) as [r' t'] eqn:Hs. intros [= <- <-].
      destruct (IH r' t' eq_refl) as (-> & Hq & Ht).
      split_and!; [done| |done].
      apply not_elem_of_cons. split; [congruence|done].
Qed.

Lemma quoted_at_value v post :
  v ≠ [] → QUOTE ∉ v → quoted_at (QUOTE :: v ++ QUOTE :: post) = Some v.
Proof.
  intros Hne Hq. unfold quoted_at. rewrite N.eqb_refl.
  rewrite span_not_app by done. by destruct v.
Qed.

Lemma quoted_at_some s v :
  quoted_at s = Some v →
  ∃ post, s = QUOTE :: v ++ QUOTE :: post ∧ v ≠ [] ∧ QUOTE ∉ v.
Proof.
  unfold quoted_at. destruct s as [|c s]; [done|].
  destruct (N.eqb_spec c QUOTE) as [->|_]; [|done].
  destruct (span_not QUOTE s) as [r t] eqn:Hs.
  apply span_not_split in Hs as (-> & Hq & Ht).
  destruct r as [|a r]; [done|]. destruct t as [|d t]; [done|].
  intros [= <-]. subst d. by exists t.
Qed.

Lemma match_quoted_unfold key s :
  match_quoted key s =
  match (if startsWith s key then quoted_at (drop (length key) s) else None) with
  | Some v => Some v
  | None => match s with [] => None | _ :: s' => match_quoted key s' end
  end.
Proof. by destruct s. Qed.

(** The pattern matches exactly the header blocks that carry the
    attribute. *)
Lemma match_quoted_attribute key h :
  is_Some (match_quoted key h) ↔ has_attribute key h.
Proof.
  split.
  - intros [v Hv]. induction h as [|c h IH].
    + rewrite match_quoted_unfold in Hv.
      destruct (startsWith [] key) eqn:Hk; [|done].
      apply startsWith_prefix in Hk as [rest Hk]. destruct key; [|done].
      simpl in Hv. done.
    + rewrite match_quoted_unfold in Hv.
      destruct (startsWith (c :: h) key) eqn:Hk.
      * apply startsWith_prefix in Hk as [rest Hk]. rewrite Hk in Hv.
        rewrite drop_app_length in Hv.
        destruct (quoted_at rest) as [v'|] eqn:Hq.
        -- apply quoted_at_some in Hq as (post & -> & Hne & Hnq).
           exists [], v', post. by rewrite Hk.
        -- destruct (IH Hv) as (pre & v' & post & -> & ?).
           by exists (c :: pre), v', post.
      * destruct (IH Hv) as (pre & v' & post & -> & ?).
        by exists (c :: pre), v', post.
  - intros (pre & v & post & -> & Hne & Hq).
    induction pre as [|c pre IH]; rewrite match_quoted_unfold.
    + simpl app. rewrite startsWith_app, drop_app_length.
      rewrite quoted_at_value by done. eauto.
    + destruct (if startsWith _ key then _ else _); [eauto|]. apply IH.
Qed.

Lemma match_quoted_includes key s v :
  match_quoted key s = Some v → includes s key = true.
Proof.
  intros Hv. destruct (match_quoted_attribute key s) as [Hattr _].
  destruct Hattr as (pre & v' & post & -> & _); [eauto|].
  apply includes_occurs. eauto.
Qed.

Lemma no_attribute key h : match_quoted key h = None ↔ ¬ has_attribute key h.
Proof.
  rewrite <- match_quoted_attribute, <- eq_None_not_Some. done.
Qed.

(** *** Occurrences across a code unit the pattern does not contain *)

Lemma startsWith_sep c p x y :
  c ∉ p → startsWith (x ++ c :: y) p = startsWith x p.
Proof.
  revert x; induction p as [|a p IH]; intros x Hc; [done|].
  apply not_elem_of_cons in Hc as [Hca Hc].
  destruct x as [|b x]; simpl.
  - destruct (N.eqb_spec a c); [congruence|done].
  - by rewrite IH.
Qed.

Lemma includes_app_sep c key x y :
  c ∉ key → includes (x ++ c :: y) key = includes x key || includes y key.
Proof.
  intros Hc. induction x as [|b x IH].
  - change (includes ([] ++ c :: y) key)
      with (startsWith ([] ++ c :: y) key || includes y key).
    rewrite startsWith_sep by done. simpl. by rewrite orb_false_r.
  - change (includes ((b :: x) ++ c :: y) key)
      with (startsWith ((b :: x) ++ c :: y) key || includes (x ++ c :: y) key).
    rewrite startsWith_sep, IH by done. simpl. by rewrite orb_assoc.
Qed.

(** A prefix free of the first code unit of the pattern holds no
    occurrence. *)
Lemma includes_skip_free c0 k x y :
  c0 ∉ x → includes (x ++ y) (c0 :: k) = includes y (c0 :: k).
Proof.
  induction x as [|b x IH]; intros Hc; [done|].
  apply not_elem_of_cons in Hc as [Hcb Hc]. simpl.
  destruct (N.eqb_spec c0 b); [congruence|]. simpl. by apply IH.
Qed.

(** When the pattern does not occur before its last code unit is
    reached, its first occurrence is the one at the end. *)
Lemma find_first_at_end pre k c :
  includes (pre ++ k) (k ++ [c]) = false →
  find_first (pre ++ k ++ [c]) (k ++ [c]) = Some (length pre).
Proof.
  induction pre as [|b pre IH]; intros Hno.
  - simpl app. destruct (k ++ [c]) as [|a l] eqn:Hk; [by destruct k|].
    assert (startsWith (a :: l) (a :: l) = true) as Hs.
    { apply startsWith_prefix. exists []. by rewrite app_nil_r. }
    cbn [find_first]. by rewrite Hs.
  - change (find_first ((b :: pre) ++ k ++ [c]) (k ++ [c])) with
      (if startsWith ((b :: pre) ++ k ++ [c]) (k ++ [c]) then Some 0
       else S <$> find_first (pre ++ k ++ [c]) (k ++ [c])).
    rewrite app_assoc, startsWith_within.
    + rewrite (includes_false_startsWith _ _ Hno), IH; [done|].
      by eapply includes_cons_false.
    + rewrite !length_app. simpl. lia.
Qed.

Lemma find_first_succ b s sub i :
  find_first (b :: s) sub = Some (S i) →
  startsWith (b :: s) sub = false ∧ find_first s sub = Some i.
Proof.
  simpl. destruct (startsWith (b :: s) sub); [done|].
  destruct (find_first s sub); [|done]. by intros [= ->].
Qed.

(** The attribute pattern finds the value that follows the first
    occurrence of the key when that value is well quoted. *)
Lemma match_quoted_first key pre v post :
  find_first (pre ++ key) key = Some (length pre) →
  v ≠ [] → QUOTE ∉ v →
  match_quoted key (pre ++ key ++ QUOTE :: v ++ QUOTE :: post) = Some v.
Proof.
  intros Hfirst Hne Hq. induction pre as [|b pre IH].
  - rewrite match_quoted_unfold. simpl app.
    rewrite startsWith_app, drop_app_length. by rewrite quoted_at_value.
  - change ((b :: pre) ++ key) with (b :: (pre ++ key)) in Hfirst.
    change (length (b :: pre)) with (S (length pre)) in Hfirst.
    apply find_first_succ in Hfirst as [Hhere Hfirst].
    change (b :: (pre ++ key)) with ((b :: pre) ++ key) in Hhere.
    set (rest := QUOTE :: v ++ QUOTE :: post) in *.
    assert (startsWith ((b :: pre) ++ key ++ rest) key = false) as Hs.
    { rewrite app_assoc, startsWith_within; [done|]. rewrite length_app. lia. }
    rewrite match_quoted_unfold, Hs.
    change (match_quoted key (pre ++ key ++ rest) = Some v). by apply IH.
Qed.

End StringFacts.

(** ** The loop body *)

Section PartFacts.

Context {W : Type} `{Host W} (uploadsDir : str).

Implicit Types (acc m : Maps) (part : str) (w : W).

Lemma split_blank_line part :
  split part CRLFCRLF = headerStr_of part :: tl (split part CRLFCRLF).
Proof.
  unfold headerStr_of. pose proof (split_go_nonempty CRLFCRLF 0 part).
  change (split part CRLFCRLF) with (split_go CRLFCRLF 0 part).
  by destruct (split_go CRLFCRLF 0 part).
Qed.

Lemma process_part_skipped acc part w :
  skipped part = true → process_part uploadsDir acc part w = Ok acc w.
Proof. intros Hs. unfold process_part. by rewrite Hs. Qed.

(** A part in the file branch whose file name pattern fails, or in the
    field branch whose name pattern fails, leaves everything as it is. *)
Lemma process_part_ignored acc part w :
  match_quoted
    (if includes (headerStr_of part) (lit "filename=")
     then lit "filename=" else lit "name=") (headerStr_of part) = None →
  process_part uploadsDir acc part w = Ok acc w.
Proof.
  intros Hnone. unfold process_part.
  destruct (skipped part); [done|]. rewrite split_blank_line.
  destruct (includes (headerStr_of part) (lit "filename=")); by rewrite Hnone.
Qed.

Lemma process_part_field acc part fieldName w :
  skipped part = false →
  includes (headerStr_of part) (lit "filename=") = false →
  match_quoted (lit "name=") (headerStr_of part) = Some fieldName →
  process_part uploadsDir acc part w =
  Ok (set_field acc fieldName (strip_last (bodyContent_of part))) w.
Proof.
  intros Hs Hf Hn. unfold process_part, bodyContent_of.
  rewrite Hs, split_blank_line, Hf, Hn. done.
Qed.

Lemma process_part_file acc part originalFilename w :
  skipped part = false →
  match_quoted (lit "filename=") (headerStr_of part) = Some originalFilename →
  process_part uploadsDir acc part w =
  save_file uploadsDir acc originalFilename (strip_last (bodyContent_of part)) w.
Proof.
  intros Hs Hf. unfold process_part, bodyContent_of.
  rewrite Hs, split_blank_line, (match_quoted_includes _ _ _ Hf), Hf. done.
Qed.

Lemma for_of_app {A S : Type} (l1 l2 : list A) (body : S → A → M W S) (a : S) w :
  for_of (l1 ++ l2) body a w =
  match for_of l1 body a w with
  | Ok a' w' => for_of l2 body a' w'
  | Throw e w' => Throw e w'
  end.
Proof.
  revert a w; induction l1 as [|x l1 IH]; intros a w; [done|].
  simpl. unfold bind. destruct (body a x w); [apply IH|done].
Qed.

(** C8: a part whose header block carries neither a [filename] attribute
    nor a [name] attribute adds no entry to either mapping, throws nothing
    and touches nothing, so that the loop over the parts runs as if the
    part were not there. *)
Theorem part_without_attributes_ignored acc part w :
  ¬ has_attribute (lit "filename=") (headerStr_of part) →
  ¬ has_attribute (lit "name=") (headerStr_of part) →
  process_part uploadsDir acc part w = Ok acc w ∧
  ∀ pre post m0 w0,
    for_of (pre ++ part :: post) (process_part uploadsDir) m0 w0 =
    for_of (pre ++ post) (process_part uploadsDir) m0 w0.
Proof.
  intros Hfile%no_attribute Hname%no_attribute.
  assert (∀ a v, process_part uploadsDir a part v = Ok a v) as Hskip.
  { intros a v. apply process_part_ignored.
    by destruct (includes (headerStr_of part) (lit "filename=")). }
  split; [apply Hskip|]. intros pre post m0 w0.
  rewrite !for_of_app. destruct (for_of pre _ m0 w0) as [a v|]; [|done].
  simpl. unfold bind. by rewrite Hskip.
Qed.

(** C9: a part whose header block contains [filename=] without a quoted
    file name takes the file branch, where nothing matches; its [name]
    attribute, if it has one, is never looked at, and no entry is made in
    either mapping. *)
Theorem unquoted_filename_drops_part acc part w :
  includes (headerStr_of part) (lit "filename=") = true →
  ¬ has_attribute (lit "filename=") (headerStr_of part) →
  process_part uploadsDir acc part w = Ok acc w.
Proof.
  intros Hinc Hfile%no_attribute.
  apply process_part_ignored. by rewrite Hinc.
Qed.

(** C10: when the body block of a processed part contains no line
    terminator, the field is given the empty string, and the file is
    written with no bytes and recorded with size 0, whatever the body
    block holds. *)
Theorem body_without_terminator_decodes_empty acc part w :
  skipped part = false →
  includes (bodyContent_of part) CRLF = false →
  (∀ fieldName,
     includes (headerStr_of part) (lit "filename=") = false →
     match_quoted (lit "name=") (headerStr_of part) = Some fieldName →
     process_part uploadsDir acc part w =
     Ok {| files := files acc;
           fields := obj_set (fields acc) fieldName [] |} w) ∧
  (∀ originalFilename,
     match_quoted (lit "filename=") (headerStr_of part) = Some originalFilename →
     process_part uploadsDir acc part w =
     let '(hex, w1) := randomBytes_hex 16 w in
     let filename := hex ++ path_extname originalFilename in
     match writeFileSync (path_join uploadsDir filename) [] w1 with
     | Some w2 =>
         Ok {| files :=
                 obj_set (files acc) originalFilename
                   {| File.filename := filename;
                      File.originalFilename := originalFilename;
                      File.size := 0;
                      File.path := path_join uploadsDir filename |};
               fields := fields acc |} w2
     | None => Throw FsError w1
     end).
Proof.
  intros Hs Hb. split.
  - intros fieldName Hf Hn.
    rewrite (process_part_field _ _ fieldName) by done.
    by rewrite strip_last_none.
  - intros originalFilename Hf.
    rewrite (process_part_file _ _ originalFilename) by done.
    rewrite strip_last_none by done.
    unfold save_file, bind, crypto_randomBytes_hex, fs_writeFileSync.
    destruct (randomBytes_hex 16 w) as [hex w1]. simpl.
    by destruct (writeFileSync _ [] w1).
Qed.

Lemma blank_line_split h body :
  find_first (h ++ CRLFCRLF) CRLFCRLF = Some (length h) →
  headerStr_of (h ++ CRLFCRLF ++ body) = h ∧
  bodyContent_of (h ++ CRLFCRLF ++ body) = body.
Proof.
  intros [_ Hmin]%find_first_occurs.
  unfold headerStr_of, bodyContent_of.
  change (split (h ++ CRLFCRLF ++ body) CRLFCRLF)
    with (split_go CRLFCRLF 0 (h ++ CRLFCRLF ++ body)).
  rewrite split_go_clean by done. simpl hd. simpl tl.
  by rewrite join_split_go.
Qed.

(** The value of a field and the content of a file are the body block
    cut at its last line terminator.  A body
    block that ends with a line terminator loses exactly that one; one
    that goes on after its last line terminator loses what follows it as
    well; one without a line terminator gives the empty string. *)
Theorem value_is_body_cut_at_last_terminator acc part w :
  skipped part = false →
  (∀ fieldName,
     includes (headerStr_of part) (lit "filename=") = false →
     match_quoted (lit "name=") (headerStr_of part) = Some fieldName →
     process_part uploadsDir acc part w =
     Ok (set_field acc fieldName (strip_last (bodyContent_of part))) w) ∧
  (∀ originalFilename,
     match_quoted (lit "filename=") (headerStr_of part) = Some originalFilename →
     process_part uploadsDir acc part w =
     save_file uploadsDir acc originalFilename (strip_last (bodyContent_of part)) w) ∧
  (∀ x, strip_last (x ++ CRLF) = x) ∧
  (∀ x y, includes y CRLF = false → strip_last (x ++ CRLF ++ y) = x) ∧
  (∀ b, includes b CRLF = false → strip_last b = []).
Proof.
  intros Hs. split_and!.
  - intros. by apply process_part_field.
  - intros. by apply process_part_file.
  - apply strip_last_crlf.
  - apply strip_last_cut.
  - apply strip_last_none.
Qed.

End PartFacts.

(** ** The parts of a well-formed body *)

Section SegmentFacts.

Implicit Types (p : FormPart) (n f t v line rest : str).

Lemma startsWith_cons a b s pat :
  startsWith (b :: s) (a :: pat) = N.eqb a b && startsWith s pat.
Proof. done. Qed.

Lemma segment_not_blank p : forallb isWhiteSpace (segment p) = false.
Proof. by destruct p. Qed.

(** A header line free of CR, with the line terminator before it, holds no
    blank line and does not begin one. *)
Lemma includes_line line rest :
  CR ∉ line → line ≠ [] →
  includes (CRLF ++ line ++ rest) CRLFCRLF = includes rest CRLFCRLF.
Proof.
  intros Hfree Hne. destruct line as [|a line]; [done|].
  pose proof Hfree as [Ha _]%not_elem_of_cons.
  change (includes (CRLF ++ (a :: line) ++ rest) CRLFCRLF) with
    (startsWith (CR :: LF :: a :: line ++ rest) CRLFCRLF
     || (startsWith (LF :: a :: line ++ rest) CRLFCRLF
         || includes ((a :: line) ++ rest) CRLFCRLF)).
  unfold CRLFCRLF at 1 2. rewrite !startsWith_cons.
  rewrite (proj2 (N.eqb_neq CR a)) by done.
  change (N.eqb CR LF) with false. rewrite !N.eqb_refl.
  rewrite !andb_true_l, !andb_false_l, !orb_false_l.
  unfold CRLFCRLF. by apply includes_skip_free.
Qed.

Lemma disposition_free c n :
  c ∉ lit "Content-Disposition: form-data; name=" → c ≠ QUOTE → c ∉ n →
  c ∉ disposition n.
Proof.
  intros Hlit Hq Hn. unfold disposition.
  rewrite not_elem_of_app, not_elem_of_cons, not_elem_of_app, not_elem_of_cons.
  split_and!; [done..|apply not_elem_of_nil].
Qed.

Lemma CR_not_in_disposition n : CR ∉ n → CR ∉ disposition n.
Proof. intros Hn. apply disposition_free; [compute_done|done..]. Qed.

(** The blank line that ends the header block of a well-formed part is
    the first one of the part. *)
Lemma header_blank_line p :
  plain_names p →
  find_first ((CRLF ++ part_headers p) ++ CRLFCRLF) CRLFCRLF
    = Some (length (CRLF ++ part_headers p)).
Proof.
  intros Hp.
  change CRLFCRLF with ([CR; LF; CR] ++ [LF]).
  apply find_first_at_end.
  change ([CR; LF; CR] ++ [LF]) with CRLFCRLF.
  destruct p as [n v|n f t c]; unfold part_headers, part_lines, join.
  - destruct Hp as ((_ & Hn) & _).
    rewrite <- app_assoc, includes_line; [done| |by destruct n].
    by apply CR_not_in_disposition.
  - destruct Hp as ((_ & Hn) & _ & (_ & Hf) & _ & _ & Ht).
    rewrite <- !app_assoc.
    rewrite includes_line; [|by apply CR_not_in_disposition|done].
    rewrite (app_assoc (lit "; filename=")).
    unfold CRLFCRLF at 1. rewrite includes_skip_free.
    + change [CR; LF; CR; LF] with CRLFCRLF.
      rewrite (app_assoc (lit "Content-Type: ")), includes_line; [done| |done].
      rewrite not_elem_of_app. split; [compute_done|done].
    + rewrite not_elem_of_app, not_elem_of_cons, not_elem_of_app, not_elem_of_cons.
      split_and!; [compute_done|done..|apply not_elem_of_nil].
Qed.

Lemma quoted_between (x v y z : str) :
  (x ++ QUOTE :: v ++ QUOTE :: y) ++ z = x ++ QUOTE :: v ++ QUOTE :: (y ++ z).
Proof. rewrite <- app_assoc. simpl. by rewrite <- app_assoc. Qed.

(** The header block of a field part: no [filename=], and the name
    pattern finds the name. *)
Lemma field_header n :
  quotable n → includes n (lit "filename=") = false → n ≠ [] →
  includes (CRLF ++ disposition n) (lit "filename=") = false ∧
  match_quoted (lit "name=") (CRLF ++ disposition n) = Some n.
Proof.
  intros [Hq _] Hn Hne. split.
  - unfold disposition. rewrite !app_assoc.
    rewrite includes_app_sep by compute_done.
    rewrite includes_app_sep by compute_done.
    by rewrite Hn.
  - change (CRLF ++ disposition n) with
      ((CRLF ++ lit "Content-Disposition: form-data; ")
         ++ lit "name=" ++ QUOTE :: n ++ QUOTE :: []).
    by apply match_quoted_first.
Qed.

(** The header block of a file part: the file name pattern finds the
    original file name. *)
Lemma file_header n f t :
  quotable n → includes n (lit "filename=") = false →
  quotable f → f ≠ [] →
  match_quoted (lit "filename=")
    (CRLF ++ part_headers (FilePart n f t [])) = Some f.
Proof.
  intros [Hqn _] Hn [Hqf _] Hne.
  assert (CRLF ++ part_headers (FilePart n f t []) =
          ((CRLF ++ lit "Content-Disposition: form-data; name=")
             ++ QUOTE :: n ++ QUOTE :: lit "; ")
            ++ lit "filename=" ++ QUOTE :: f
            ++ QUOTE :: (CRLF ++ lit "Content-Type: " ++ t)) as ->.
  { unfold part_headers, part_lines, join, disposition.
    rewrite <- !app_assoc. simpl. by rewrite <- !app_assoc. }
  apply match_quoted_first; [|done..].
  change (lit "filename=") with (lit "filename" ++ [61%N]).
  apply find_first_at_end.
  change (lit "filename" ++ [61%N]) with (lit "filename=").
  rewrite (quoted_between _ n).
  rewrite !includes_app_sep by compute_done.
  by rewrite Hn.
Qed.

End SegmentFacts.

(** ** The boundary pattern *)

Lemma match_boundary_unfold s :
  match_boundary s =
  match (if startsWith s (lit "boundary=")
         then boundary_at (drop (length (lit "boundary=")) s) else None) with
  | Some g => Some g
  | None => match s with [] => None | _ :: s' => match_boundary s' end
  end.
Proof. by destruct s. Qed.

Lemma boundary_at_none s :
  boundary_at s = None ↔ match s with [] => True | c :: _ => c = SEMI end.
Proof.
  unfold boundary_at. destruct s as [|c s]; [done|].
  destruct (N.eqb_spec c SEMI) as [->|Hne].
  - done.
  - split; [|done]. intros Hnone. exfalso.
    destruct (quoted_at (c :: s)); [done|]. simpl in Hnone.
    destruct (N.eqb_spec c SEMI); [done|].
    by destruct (span_not SEMI s).
Qed.

(** No boundary can be extracted exactly when every [boundary=] of the
    header is followed by a semicolon or by nothing. *)
Lemma match_boundary_none ct :
  match_boundary ct = None ↔
  ∀ pre c post, ct = pre ++ lit "boundary=" ++ c :: post → c = SEMI.
Proof.
  induction ct as [|a ct IH]; rewrite match_boundary_unfold.
  - split; [|done]. intros _ pre c post Heq. by destruct pre.
  - destruct (startsWith (a :: ct) (lit "boundary=")) eqn:Hk.
    + apply startsWith_prefix in Hk as [rest Hk]. rewrite Hk, drop_app_length.
      destruct (boundary_at rest) as [g|] eqn:Hb.
      * split; [done|]. intros Hall. exfalso.
        assert (boundary_at rest ≠ None) as Hsome by (by rewrite Hb).
        apply Hsome, boundary_at_none. destruct rest as [|c rest]; [done|].
        by apply (Hall [] c rest).
      * rewrite <- Hk, IH. apply boundary_at_none in Hb. split.
        -- intros Hall [|b pre] c post Heq.
           ++ rewrite Hk in Heq. simpl in Heq.
              apply (app_inv_head (lit "boundary=")) in Heq. by subst rest.
           ++ injection Heq as -> ->. by eapply Hall.
        -- intros Hall pre c post ->. by apply (Hall (a :: pre) c post).
    + rewrite IH. split.
      * intros Hall [|b pre] c post Heq.
        -- rewrite app_nil_l in Heq. rewrite Heq in Hk.
           by rewrite (startsWith_app (lit "boundary=") (c :: post)) in Hk.
        -- injection Heq as -> ->. by eapply Hall.
      * intros Hall pre c post ->. by apply (Hall (a :: pre) c post).
Qed.

(** ** The whole decode *)

Section DecodeFacts.

Context {W : Type} `{Host W} (uploadsDir : str).

Implicit Types (acc m : Maps) (part : str) (w : W) (req : Request).



Lemma obj_set_proto {V : Type} (o : gmap str V) k v :
  o !! PROTO = None → obj_set o k v !! PROTO = None.
Proof.
  intros Ho. unfold obj_set. destruct (decide (k = PROTO)); [done|].
  by rewrite lookup_insert_ne.
Qed.

Lemma save_file_ok acc f c w m w' :
  save_file uploadsDir acc f c w = Ok m w' →
  ∃ r, m = {| files := obj_set (files acc) f r; fields := fields acc |} ∧
       File.originalFilename r = f ∧ File.size r = length c.
Proof.
  unfold save_file, bind, crypto_randomBytes_hex, fs_writeFileSync.
  destruct (randomBytes_hex 16 w) as [hex w1].
  destruct (writeFileSync _ _ w1) as [w2|]; [|done].
  intros [= <- <-]. eexists. split_and!; [done..|].
  simpl. unfold Buffer_from_binary. apply length_map.
Qed.

(** What the loop body does to a part: nothing, a field assignment, or a
    file saved. *)
Lemma process_part_cases acc part w :
  (field_key part = None ∧ file_key part = None ∧
   process_part uploadsDir acc part w = Ok acc w) ∨
  (∃ n, field_key part = Some n ∧ file_key part = None ∧
        process_part uploadsDir acc part w =
        Ok (set_field acc n (strip_last (bodyContent_of part))) w) ∨
  (∃ f, file_key part = Some f ∧ field_key part = None ∧
        process_part uploadsDir acc part w =
        save_file uploadsDir acc f (strip_last (bodyContent_of part)) w).
Proof.
  unfold field_key, file_key.
  destruct (skipped part) eqn:Hs.
  { left. split_and!; [done..|]. by apply process_part_skipped. }
  destruct (includes (headerStr_of part) (lit "filename=")) eqn:Hinc.
  - destruct (match_quoted (lit "filename=") (headerStr_of part)) as [f|] eqn:Hf.
    + right; right. exists f. split_and!; [done..|]. by apply process_part_file.
    + left. split_and!; [done..|]. apply process_part_ignored. by rewrite Hinc.
  - destruct (match_quoted (lit "name=") (headerStr_of part)) as [n|] eqn:Hn.
    + right; left. exists n. split_and!; [done..|]. by apply process_part_field.
    + left. split_and!; [done..|]. apply process_part_ignored. by rewrite Hinc.
Qed.

(** No run of the loop puts [__proto__] among the own properties. *)
Lemma process_part_proto_free acc part w m w' :
  fields acc !! PROTO = None → files acc !! PROTO = None →
  process_part uploadsDir acc part w = Ok m w' →
  fields m !! PROTO = None ∧ files m !! PROTO = None.
Proof.
  intros Hfd Hfl.
  destruct (process_part_cases acc part w)
    as [(_ & _ & ->)|[(n & _ & _ & ->)|(f & _ & _ & ->)]].
  - by intros [= <- <-].
  - intros [= <- <-]. simpl. split; [by apply obj_set_proto|done].
  - intros (r & -> & _)%save_file_ok. simpl. split; [done|by apply obj_set_proto].
Qed.

Lemma for_of_proto_free parts acc w m w' :
  fields acc !! PROTO = None → files acc !! PROTO = None →
  for_of parts (process_part uploadsDir) acc w = Ok m w' →
  fields m !! PROTO = None ∧ files m !! PROTO = None.
Proof.
  revert acc w; induction parts as [|p parts IH]; intros acc w Hfd Hfl; simpl.
  - by intros [= <- <-].
  - unfold bind. destruct (process_part uploadsDir acc p w) as [a v|] eqn:Hp; [|done].
    destruct (process_part_proto_free _ _ _ _ _ Hfd Hfl Hp). by apply IH.
Qed.



(** C5: when no boundary can be extracted from the content type, that is
    when each [boundary=] in it is followed by a semicolon or ends the
    header, and also when there is no content type at all, the decode
    throws before it looks at the body: the answer is the error response
    whatever the body is, nothing is assigned to the request, and the
    world is left as it was. *)
Theorem missing_boundary_rejected req data w :
  (∀ ct pre c post,
     content_type req = Some ct →
     ct = pre ++ lit "boundary=" ++ c :: post → c = SEMI) →
  parse uploadsDir (content_type req) data w
    = Throw (Error (lit "No boundary found")) w ∧
  on_end uploadsDir req data w
    = (Respond 400 (lit "Error processing form data"), w) ∧
  (∀ ct, content_type req = Some ct →
         includes ct (lit "multipart/form-data") = true →
         uploadMiddleware uploadsDir req data w
           = (Respond 400 (lit "Error processing form data"), w)).
Proof.
  intros Hno.
  assert (content_type req ≫= match_boundary = None) as Hnone.
  { destruct (content_type req) as [ct|] eqn:Hct; [|done]. simpl.
    apply match_boundary_none. intros pre c post. by apply Hno. }
  assert (parse uploadsDir (content_type req) data w
          = Throw (Error (lit "No boundary found")) w) as Hparse.
  { unfold parse. by rewrite Hnone. }
  split_and!; [done| |].
  - unfold on_end. by rewrite Hparse.
  - intros ct Hct Hmp. unfold uploadMiddleware, on_end.
    by rewrite Hct, Hmp, <- Hct, Hparse.
Qed.

(** C7: whatever is thrown inside the [try] block, the middleware answers
    with the error response and never calls [next], so that nothing is
    assigned to the request.  In particular, when the processing of a part
    throws after any number of parts processed without trouble, as when a
    file cannot be written, the block throws as a whole: the entries made
    by the earlier parts are handed to nobody. *)
Theorem exception_aborts_decode req data w :
  (∀ e w2,
     parse uploadsDir (content_type req) data w = Throw e w2 →
     on_end uploadsDir req data w
       = (Respond 400 (lit "Error processing form data"), w2) ∧
     ∀ req' w', on_end uploadsDir req data w ≠ (Next req', w')) ∧
  (∀ g pre p post m1 w1 e w2,
     content_type req ≫= match_boundary = Some g →
     split data (lit "--" ++ interpolate (or_else g.1 g.2)) = pre ++ p :: post →
     for_of pre (process_part uploadsDir) no_maps w = Ok m1 w1 →
     process_part uploadsDir m1 p w1 = Throw e w2 →
     parse uploadsDir (content_type req) data w = Throw e w2).
Proof.
  split.
  - intros e w2 Hparse.
    assert (on_end uploadsDir req data w
            = (Respond 400 (lit "Error processing form data"), w2)) as Hend.
    { unfold on_end. by rewrite Hparse. }
    split; [done|]. intros req' w'. by rewrite Hend.
  - intros g pre p post m1 w1 e w2 Hg Hsplit Hpre Hp.
    unfold parse. rewrite Hg. destruct g as [g1 g2]. cbn [fst snd] in Hsplit.
    rewrite Hsplit, for_of_app, Hpre. simpl. unfold bind. by rewrite Hp.
Qed.

End DecodeFacts.

(** ** Decoding a well-formed body *)

Section BodyFacts.

Context {W : Type} `{Host W} (uploadsDir : str).

Implicit Types (acc m : Maps) (p : FormPart) (ps : list FormPart) (w : W).

Lemma segment_not_skipped B p : framed B p → skipped (segment p) = false.
Proof.
  intros [_ Hd]. unfold skipped.
  change (lit "--" ++ CRLF) with closing. rewrite Hd, orb_false_r.
  destruct (truthy (trim (segment p))) eqn:Ht; [done|].
  apply trim_falsy in Ht. by rewrite segment_not_blank in Ht.
Qed.

Lemma segment_split p :
  plain_names p →
  headerStr_of (segment p) = CRLF ++ part_headers p ∧
  bodyContent_of (segment p) = part_content p ++ CRLF.
Proof.
  intros Hp. unfold segment. rewrite (app_assoc CRLF).
  apply blank_line_split. by apply header_blank_line.
Qed.

(** The loop body does to the segment of a well-formed part what the part
    asks for. *)
Lemma process_segment B p acc w :
  framed B p → plain_names p →
  process_part uploadsDir acc (segment p) w = store_part uploadsDir acc p w.
Proof.
  intros Hfr Hp.
  pose proof (segment_not_skipped B p Hfr) as Hs.
  destruct (segment_split p Hp) as [Hh Hb].
  destruct p as [n v|n f t c]; simpl in Hp.
  - destruct Hp as (Hq & Hn & Hne & _).
    destruct (field_header n Hq Hn Hne) as [Hinc Hmatch].
    rewrite (process_part_field _ _ _ n) by (by rewrite ?Hh).
    rewrite Hb. simpl part_content. by rewrite strip_last_crlf.
  - destruct Hp as (Hqn & Hn & Hqf & Hne & _).
    pose proof (file_header n f t Hqn Hn Hqf Hne) as Hmatch.
    rewrite (process_part_file _ _ _ f) by (by rewrite ?Hh).
    rewrite Hb. simpl part_content. by rewrite strip_last_crlf.
Qed.

Lemma delimiter_not_in_closing B :
  boundary_ok B → includes closing (delimiter B) = false.
Proof.
  intros [Hne Hcr]. destruct B as [|b B]; [done|].
  apply not_elem_of_cons in Hcr as [Hb _].
  change (includes closing (delimiter (b :: B))) with
    (startsWith [45%N; 45%N; CR; LF] (45%N :: 45%N :: b :: B) || false).
  rewrite !startsWith_cons, (proj2 (N.eqb_neq b CR)) by done.
  by rewrite andb_false_l, !andb_false_r.
Qed.

(** The candidate parts of a well-formed body: the empty segment before
    the first delimiter, the parts, and the closing segment. *)
Lemma split_encode B ps :
  boundary_ok B → Forall (framed B) ps →
  split (encode B ps) (delimiter B) = [] :: map segment ps ++ [closing].
Proof.
  intros Hok Hps.
  change (split (encode B ps) (delimiter B))
    with (split_go (delimiter B) 0 (delimiter B ++ encode_after B ps)).
  rewrite split_go_sep by done. f_equal.
  induction Hps as [|p ps [Hfirst _] _ IH].
  - apply split_go_no_occurrence. by apply delimiter_not_in_closing.
  - change (encode_after B (p :: ps))
      with (segment p ++ delimiter B ++ encode_after B ps).
    rewrite split_go_clean; [by rewrite IH|done|].
    by apply find_first_occurs in Hfirst as [_ Hmin].
Qed.

Lemma for_of_segments B ps acc w :
  Forall (framed B) ps → Forall plain_names ps →
  for_of (map segment ps ++ [closing]) (process_part uploadsDir) acc w =
  for_of ps (store_part uploadsDir) acc w.
Proof.
  intros Hfr Hpl. revert acc w.
  induction ps as [|p ps IH]; intros acc w.
  - cbn [map app for_of]. unfold bind. by rewrite process_part_skipped.
  - apply Forall_cons in Hfr as [Hfr1 Hfr], Hpl as [Hpl1 Hpl].
    cbn [map app for_of]. unfold bind. rewrite (process_segment B) by done.
    destruct (store_part uploadsDir acc p w); [by apply IH|done].
Qed.

(** Decoding a well-formed body is storing its parts one after the
    other. *)
Lemma parse_encode ct g B ps w :
  ct ≫= match_boundary = Some g →
  interpolate (or_else g.1 g.2) = B →
  boundary_ok B → Forall (framed B) ps → Forall plain_names ps →
  parse uploadsDir ct (encode B ps) w =
  for_of ps (store_part uploadsDir) no_maps w.
Proof.
  intros Hg HB Hok Hfr Hpl. unfold parse. rewrite Hg.
  destruct g as [g1 g2]. cbn [fst snd] in HB. rewrite HB.
  change (lit "--" ++ B) with (delimiter B).
  rewrite split_encode by done.
  change (for_of ([] :: ?l) ?b ?a w) with
    (bind (b a []) (λ a', for_of l b a') w).
  unfold bind. rewrite process_part_skipped by done.
  by apply (for_of_segments B).
Qed.

(** The mappings after the parts have been stored, when no two of them
    have the same key. *)
Lemma store_parts_maps ps acc w m w' :
  for_of ps (store_part uploadsDir) acc w = Ok m w' →
  Forall plain_names ps →
  NoDup (field_names ps) → NoDup (file_names ps) →
  (∀ n, n ∈ field_names ps → fields acc !! n = None) →
  (∀ f, f ∈ file_names ps → files acc !! f = None) →
  size (fields m) = size (fields acc) + length (field_names ps) ∧
  size (files m) = size (files acc) + length (file_names ps) ∧
  (∀ k, k ∉ field_names ps → fields m !! k = fields acc !! k) ∧
  (∀ k, k ∉ file_names ps → files m !! k = files acc !! k) ∧
  (∀ n v, FieldPart n v ∈ ps → fields m !! n = Some v) ∧
  (∀ n f t c, FilePart n f t c ∈ ps →
     ∃ r, files m !! f = Some r ∧
          File.originalFilename r = f ∧ File.size r = length c).
Proof.
  revert acc w. induction ps as [|p ps IH]; intros acc w Hrun Hpl Hfd Hfl Hnew_fd Hnew_fl.
  { injection Hrun as <- <-. simpl.
    split_and!; try done; try lia.
    - intros n v Hin. by apply elem_of_nil in Hin.
    - intros n f t c Hin. by apply elem_of_nil in Hin. }
  apply Forall_cons in Hpl as [Hp Hpl].
  cbn [for_of] in Hrun. unfold bind in Hrun.
  destruct (store_part uploadsDir acc p w) as [acc1 w1|] eqn:Hstore; [|done].
  destruct p as [n v|n f t c].
  - (* a field *)
    injection Hstore as <- <-.
    destruct Hp as (_ & _ & _ & Hproto).
    change (field_names (FieldPart n v :: ps)) with (n :: field_names ps) in *.
    change (file_names (FieldPart n v :: ps)) with (file_names ps) in *.
    apply NoDup_cons in Hfd as [Hfresh Hfd].
    assert (fields (set_field acc n v) = <[n := v]> (fields acc)) as Hset.
    { simpl. unfold obj_set. by rewrite decide_False. }
    destruct (IH (set_field acc n v) w Hrun Hpl Hfd Hfl)
      as (Hs1 & Hs2 & Hk1 & Hk2 & Hv1 & Hv2).
    { intros n' Hin. rewrite Hset, lookup_insert_ne by (intros ->; done).
      apply Hnew_fd. by right. }
    { done. }
    rewrite Hset in Hs1, Hk1.
    rewrite map_size_insert_None in Hs1 by (apply Hnew_fd; by left).
    split_and!.
    + simpl. lia.
    + done.
    + intros k [Hkn Hk]%not_elem_of_cons. rewrite Hk1 by done.
      by apply lookup_insert_ne.
    + done.
    + intros n' v' [[= -> ->]|Hin]%elem_of_cons; [|by eapply Hv1].
      rewrite Hk1 by done. apply lookup_insert_eq.
    + intros n' f t c [[=]|Hin]%elem_of_cons. by eapply Hv2.
  - (* a file *)
    simpl in Hstore. apply save_file_ok in Hstore as (r & -> & Hr1 & Hr2).
    destruct Hp as (_ & _ & _ & _ & Hproto & _).
    change (field_names (FilePart n f t c :: ps)) with (field_names ps) in *.
    change (file_names (FilePart n f t c :: ps)) with (f :: file_names ps) in *.
    apply NoDup_cons in Hfl as [Hfresh Hfl].
    set (acc1 := {| files := obj_set (files acc) f r; fields := fields acc |}) in *.
    assert (files acc1 = <[f := r]> (files acc)) as Hset.
    { simpl. unfold obj_set. by rewrite decide_False. }
    destruct (IH acc1 w1 Hrun Hpl Hfd Hfl)
      as (Hs1 & Hs2 & Hk1 & Hk2 & Hv1 & Hv2).
    { done. }
    { intros f' Hin. rewrite Hset, lookup_insert_ne by (intros ->; done).
      apply Hnew_fl. by right. }
    rewrite Hset in Hs2, Hk2.
    rewrite map_size_insert_None in Hs2 by (apply Hnew_fl; by left).
    split_and!.
    + done.
    + simpl. lia.
    + done.
    + intros k [Hkn Hk]%not_elem_of_cons. rewrite Hk2 by done.
      by apply lookup_insert_ne.
    + intros n' v' [[=]|Hin]%elem_of_cons. by eapply Hv1.
    + intros n' f' t' c' [[= -> -> -> ->]|Hin]%elem_of_cons; [|by eapply Hv2].
      exists r. rewrite Hk2 by done. split_and!; [apply lookup_insert_eq|done..].
Qed.

Lemma store_parts_succeed ps acc w :
  (∀ path bytes w0, is_Some (writeFileSync path bytes w0)) →
  ∃ m w', for_of ps (store_part uploadsDir) acc w = Ok m w'.
Proof.
  intros Hwrite. revert acc w.
  induction ps as [|p ps IH]; intros acc w; [by eexists _, _|].
  cbn [for_of]. unfold bind.
  assert (∃ a v, store_part uploadsDir acc p w = Ok a v) as (a & v & ->).
  { destruct p as [n v|n f t c]; [by eexists _, _|].
    simpl. unfold save_file, bind, crypto_randomBytes_hex, fs_writeFileSync.
    destruct (randomBytes_hex 16 w) as [hex w1].
    destruct (Hwrite (path_join uploadsDir (hex ++ path_extname f))
                (Buffer_from_binary c) w1) as [w2 ->].
    by eexists _, _. }
  apply IH.
Qed.

Lemma Buffer_from_binary_bytes c :
  Forall (λ u, (u < 256)%N) c → Buffer_from_binary c = c.
Proof.
  unfold Buffer_from_binary. induction 1 as [|u c Hu _ IH]; [done|].
  simpl. rewrite IH. f_equal.
  change 255%N with (N.ones 8). rewrite N.land_ones.
  by apply N.mod_small.
Qed.

(** Bytes below 128 are read as they are, chunk after chunk. *)
Lemma toString_ascii bytes : ascii bytes → Buffer_toString bytes = bytes.
Proof.
  unfold Buffer_toString. induction 1 as [|b bytes Hb _ IH]; [done|].
  cbn [utf8_decode]. unfold lead.
  rewrite (proj2 (N.ltb_lt b 128)) by done. cbn [app]. by rewrite IH.
Qed.

Lemma request_body_from data chunks :
  fold_left on_data chunks data = data ++ concat (Buffer_toString <$> chunks).
Proof.
  revert data. induction chunks as [|c chunks IH]; intros data.
  - cbn. by rewrite app_nil_r.
  - cbn [fold_left fmap list_fmap concat]. rewrite IH. unfold on_data.
    by rewrite <- app_assoc.
Qed.

Lemma request_body_ascii chunks :
  ascii (concat chunks) → request_body chunks = concat chunks.
Proof.
  intros Hall%Forall_concat. unfold request_body.
  rewrite request_body_from. cbn [app]. f_equal.
  induction Hall as [|c chunks Hc _ IH]; [done|].
  cbn [fmap list_fmap]. f_equal; [by apply toString_ascii|done].
Qed.

(** What holds of every code unit of a body holds of the content of its
    parts. *)
Lemma encode_contents (P : N → Prop) B ps :
  Forall P (encode B ps) → Forall (λ p, Forall P (part_content p)) ps.
Proof.
  unfold encode. intros [_ Hafter]%Forall_app.
  induction ps as [|p ps IH]; [done|].
  change (encode_after B (p :: ps))
    with (segment p ++ delimiter B ++ encode_after B ps) in Hafter.
  apply Forall_app in Hafter as [Hseg [_ Hrest]%Forall_app].
  constructor; [|by apply IH].
  unfold segment in Hseg.
  apply Forall_app in Hseg as [_ [_ [_ [Hc _]%Forall_app]%Forall_app]%Forall_app].
  done.
Qed.

(** Storing parts with plain names whose contents are bytes is decoding
    them as the specification says. *)
Lemma store_parts_as_specified ps acc w :
  Forall plain_names ps →
  Forall (λ p, Forall (λ u, (u < 256)%N) (part_content p)) ps →
  for_of ps (store_part uploadsDir) acc w =
  match decode_as_specified uploadsDir ps acc w with
  | (Some m, w') => Ok m w'
  | (None, w') => Throw FsError w'
  end.
Proof.
  intros Hpl Hby. revert acc w.
  induction ps as [|p ps IH]; intros acc w; [done|].
  apply Forall_cons in Hpl as [Hp Hpl]. apply Forall_cons in Hby as [Hc Hby].
  cbn [for_of]. unfold bind. destruct p as [n v|n f t c].
  - cbn [store_part decode_as_specified]. unfold ret, set_field, obj_set.
    destruct Hp as (_ & _ & _ & Hproto). rewrite decide_False by done.
    by apply IH.
  - cbn [store_part decode_as_specified part_content] in *.
    unfold save_file, bind, crypto_randomBytes_hex, fs_writeFileSync, ret.
    destruct (randomBytes_hex 16 w) as [random w1].
    rewrite Buffer_from_binary_bytes by done.
    destruct (writeFileSync _ c w1) as [w2|]; [|done].
    unfold obj_set. destruct Hp as (_ & _ & _ & _ & Hproto & _).
    rewrite decide_False by done. by apply IH.
Qed.

(** The handler of ['end'] on the bytes of a well-formed body. *)
Lemma on_end_as_specified req g B ps chunks w :
  content_type req ≫= match_boundary = Some g →
  interpolate (or_else g.1 g.2) = B →
  boundary_ok B →
  Forall (framed B) ps → Forall plain_names ps →
  concat chunks = encode B ps → ascii (encode B ps) →
  on_end uploadsDir req (request_body chunks) w
  = answer_of req (decode_as_specified uploadsDir ps no_maps w) ∧
  for_of ps (store_part uploadsDir) no_maps w =
  match decode_as_specified uploadsDir ps no_maps w with
  | (Some m, w') => Ok m w'
  | (None, w') => Throw FsError w'
  end.
Proof.
  intros Hg HB Hok Hfr Hpl Hchunks Hascii.
  assert (for_of ps (store_part uploadsDir) no_maps w =
          match decode_as_specified uploadsDir ps no_maps w with
          | (Some m, w') => Ok m w'
          | (None, w') => Throw FsError w'
          end) as Hstore.
  { apply store_parts_as_specified; [done|].
    eapply Forall_impl;
      [exact (encode_contents (λ u, (u < 128)%N) B ps Hascii)|].
    intros p Hp. eapply Forall_impl; [exact Hp|]. intros u Hu. simpl in Hu. lia. }
  split; [|done].
  rewrite request_body_ascii by (by rewrite Hchunks). rewrite Hchunks.
  unfold on_end. rewrite (parse_encode _ g B) by done. rewrite Hstore.
  by destruct (decode_as_specified uploadsDir ps no_maps w) as [[m|] w'].
Qed.

(** C1, as the code has it: take the bytes of a body, all below 128 and
    arriving in any chunks, made of parts that are framed by the delimiter
    and contain no two dashes followed by a line terminator, with plain
    names, no two field parts of the same name and no two file parts of
    the same original file name.  The middleware decodes them as the
    specification says: for each file part in body order it draws a fresh
    name and writes the content of the part, byte for byte, under that
    name with the extension of the original one; it answers 400 when a
    write fails, and otherwise hands over one field entry per field part,
    with the content of the part as value, and one file entry per file
    part, under the original file name, with the length of the content,
    the storage name and its path. *)
Theorem well_formed_body_decodes req g B ps chunks w :
  content_type req ≫= match_boundary = Some g →
  interpolate (or_else g.1 g.2) = B →
  boundary_ok B →
  Forall (framed B) ps → Forall plain_names ps →
  NoDup (field_names ps) → NoDup (file_names ps) →
  concat chunks = encode B ps → ascii (encode B ps) →
  on_end uploadsDir req (request_body chunks) w
  = answer_of req (decode_as_specified uploadsDir ps no_maps w) ∧
  (∀ req' w',
     on_end uploadsDir req (request_body chunks) w = (Next req', w') →
     ∃ flds fls,
       req_body req' = Some flds ∧ req_files req' = Some fls ∧
       size flds = length (field_names ps) ∧
       size fls = length (file_names ps) ∧
       (∀ n v, FieldPart n v ∈ ps → flds !! n = Some v) ∧
       (∀ n f t c, FilePart n f t c ∈ ps →
          ∃ r, fls !! f = Some r ∧
               File.originalFilename r = f ∧ File.size r = length c)).
Proof.
  intros Hg HB Hok Hfr Hpl Hfd Hfl Hchunks Hascii.
  destruct (on_end_as_specified req g B ps chunks w) as [Hend Hstore]; [done..|].
  split; [done|]. intros req' w'. rewrite Hend.
  destruct (decode_as_specified uploadsDir ps no_maps w) as [[m|] w1]; [|done].
  intros [= <- <-].
  destruct (store_parts_maps ps no_maps w m w1 Hstore Hpl Hfd Hfl)
    as (Hs1 & Hs2 & _ & _ & Hv1 & Hv2); [done..|].
  exists (fields m), (files m). by split_and!.
Qed.



End BodyFacts.

(** * The decoder at work *)

Example split_example :
  split (lit "a, b,, c") (lit ", ") = [lit "a"; lit "b,"; lit "c"].
Proof. reflexivity. Qed.

(** The scenario of the specification: a title and a document. *)
Example title_and_document :
  ∃ m,
    parse Sample.uploads (content_type Sample.form_XYZ)
      (encode Sample.XYZ [Sample.title; Sample.doc]) TestHost.empty
    = Ok m {| TestHost.written :=
                [(Sample.uploads ++ lit "/" ++ TestHost.hex 16 0 ++ lit ".pdf",
                  lit "%PDF-1.4" ++ CRLFCRLF ++ lit "stream")];
              TestHost.counter := 1;
              TestHost.readonly := [] |} ∧
    fields m !! lit "title" = Some (lit "Algoritmi EKG") ∧
    (File.size <$> files m !! lit "doc.pdf") = Some 18 ∧
    (File.filename <$> files m !! lit "doc.pdf")
      = Some (TestHost.hex 16 0 ++ lit ".pdf") ∧
    size (fields m) = 1 ∧ size (files m) = 1.
Proof. eexists. split; [run|]. split_and!; run. Qed.

(** Two files under different names with the same original file name make
    one entry. *)
Example same_original_name :
  ∃ m w',
    parse Sample.uploads (content_type Sample.form_XYZ)
      (encode Sample.XYZ
         [FilePart (lit "a") (lit "doc.pdf") (lit "text/plain") (lit "one");
          FilePart (lit "b") (lit "doc.pdf") (lit "text/plain") (lit "three")])
      TestHost.empty = Ok m w' ∧
    size (files m) = 1 ∧
    (File.size <$> files m !! lit "doc.pdf") = Some 5.
Proof. eexists _, _. split; [run|]. split; run. Qed.

(** A field named [__proto__] makes no entry. *)
Example proto_makes_no_entry :
  parse Sample.uploads (content_type Sample.form_XYZ)
    (encode Sample.XYZ [FieldPart PROTO (lit "a")]) TestHost.empty
  = Ok no_maps TestHost.empty.
Proof. run. Qed.

(** ** Where the specification and the code part *)

(** The decoding rule fails as stated: the value of [Sample.note] has a
    line that ends with two dashes, the part is passed over, and the body
    decodes to no field at all. *)
Lemma dashes_in_a_value_lose_the_field : ¬ decode_rule_as_stated.
Proof.
  intros Hrule.
  destruct (Hrule Sample.form_XYZ Sample.groups_XYZ Sample.XYZ
              [Sample.note] TestHost.empty)
    as (req' & w' & flds & fls & Hend & Hbody & _ & Hsize & _).
  - run.
  - run.
  - split; compute_done.
  - repeat constructor.
  - repeat constructor; compute_done.
  - repeat constructor; compute_done.
  - vm_compute in Hend. injection Hend as <- <-.
    injection Hbody as <-. vm_compute in Hsize. discriminate.
Qed.


(** The rule for the value fails as stated: the body block of
    [Sample.unterminated] is [abc], without a line terminator, and the field
    is given the empty string. *)
Lemma unterminated_body_not_kept : ¬ strip_rule_as_stated.
Proof.
  intros Hrule.
  pose proof (Hrule no_maps Sample.unterminated (lit "x") TestHost.empty
                ltac:(run) ltac:(run) ltac:(run)) as Hx.
  apply (f_equal (λ r, match r with
                       | Ok m _ => fields m !! lit "x"
                       | Throw _ _ => None
                       end)) in Hx.
  vm_compute in Hx. discriminate.
Qed.



(** Bytes above 127 do not come through the reading of the chunks: in the
    content of [Sample.scan] the byte 255, which starts no sequence of
    UTF-8, is read as U+FFFD and written as its low byte 253, and the bytes
    195 and 169, a sequence of two, are read as one code unit and written
    as the one byte 233; the file is one byte shorter than the content. *)
Example bytes_above_127_are_changed :
  part_content Sample.scan = lit "%PDF" ++ [255%N; 195%N; 169%N] ∧
  ∃ req',
    on_request Sample.uploads Sample.form_XYZ
      [encode Sample.XYZ [Sample.scan]] TestHost.empty
    = (Next req',
       {| TestHost.written :=
            [(Sample.uploads ++ lit "/" ++ TestHost.hex 16 0 ++ lit ".pdf",
              lit "%PDF" ++ [253%N; 233%N])];
          TestHost.counter := 1;
          TestHost.readonly := [] |}) ∧
    (File.size <$> (req_files req' ≫= (.!! lit "scan.pdf"))) = Some 6.
Proof. split; [run|]. eexists. split; run. Qed.

(** C3: the code cuts the body block at its last line terminator instead
    of stripping one that ends it.  The only part of
    [Sample.unterminated_body] has the body block [abc], which does not end
    with a line terminator and should be left as it is: the field [x] is
    given the empty string.  The body block of [Sample.two_lines] goes on
    after its last line terminator: the field is given what stands before
    that terminator only. *)
Theorem unterminated_body_is_cut :
  split Sample.unterminated_body (delimiter Sample.XYZ)
    = [[]; Sample.unterminated; closing] ∧
  bodyContent_of Sample.unterminated = lit "abc" ∧
  strip_one_terminator (bodyContent_of Sample.unterminated) = lit "abc" ∧
  parse Sample.uploads (content_type Sample.form_XYZ)
    Sample.unterminated_body TestHost.empty
    = Ok (set_field no_maps (lit "x") []) TestHost.empty ∧
  bodyContent_of Sample.two_lines = lit "ab" ++ CRLF ++ lit "cd" ∧
  strip_one_terminator (bodyContent_of Sample.two_lines)
    = lit "ab" ++ CRLF ++ lit "cd" ∧
  process_part Sample.uploads no_maps Sample.two_lines TestHost.empty
    = Ok (set_field no_maps (lit "x") (lit "ab")) TestHost.empty.
Proof. split_and!; run. Qed.

(** ** The theorems at the sample requests *)

Lemma well_formed_body_decodes_witness :
  content_type Sample.form_XYZ ≫= match_boundary = Some Sample.groups_XYZ ∧
  boundary_ok Sample.XYZ ∧
  Forall (framed Sample.XYZ) [Sample.title; Sample.doc] ∧
  Forall plain_names [Sample.title; Sample.doc] ∧
  NoDup (field_names [Sample.title; Sample.doc]) ∧
  NoDup (file_names [Sample.title; Sample.doc]) ∧
  concat Sample.title_doc_chunks = encode Sample.XYZ [Sample.title; Sample.doc] ∧
  ascii (encode Sample.XYZ [Sample.title; Sample.doc]) ∧
  ∃ req' flds fls,
    on_end Sample.uploads Sample.form_XYZ
      (request_body Sample.title_doc_chunks) TestHost.empty
      = (Next req',
         {| TestHost.written :=
              [(Sample.uploads ++ lit "/" ++ TestHost.hex 16 0 ++ lit ".pdf",
                lit "%PDF-1.4" ++ CRLFCRLF ++ lit "stream")];
            TestHost.counter := 1;
            TestHost.readonly := [] |}) ∧
    req_body req' = Some flds ∧ req_files req' = Some fls ∧
    size flds = 1 ∧ size fls = 1 ∧
    flds !! lit "title" = Some (lit "Algoritmi EKG") ∧
    ∃ r, fls !! lit "doc.pdf" = Some r ∧ File.size r = 18.
Proof.
  assert (content_type Sample.form_XYZ ≫= match_boundary
          = Some Sample.groups_XYZ) as Hg by run.
  assert (boundary_ok Sample.XYZ) as Hok by (split; compute_done).
  assert (Forall (framed Sample.XYZ) [Sample.title; Sample.doc]) as Hfr.
  { repeat constructor. }
  assert (Forall plain_names [Sample.title; Sample.doc]) as Hpl.
  { repeat constructor; compute_done. }
  assert (NoDup (field_names [Sample.title; Sample.doc])) as Hfd.
  { repeat constructor; compute_done. }
  assert (NoDup (file_names [Sample.title; Sample.doc])) as Hfl.
  { repeat constructor; compute_done. }
  assert (concat Sample.title_doc_chunks
          = encode Sample.XYZ [Sample.title; Sample.doc]) as Hchunks by run.
  assert (ascii (encode Sample.XYZ [Sample.title; Sample.doc])) as Hascii.
  { unfold ascii. apply (bool_decide_unpack _). vm_compute. exact I. }
  split_and!; [done..|].
  destruct (well_formed_body_decodes Sample.uploads Sample.form_XYZ
              Sample.groups_XYZ Sample.XYZ [Sample.title; Sample.doc]
              Sample.title_doc_chunks TestHost.empty
              Hg eq_refl Hok Hfr Hpl Hfd Hfl Hchunks Hascii)
    as (Hend & Hmaps).
  destruct (decode_as_specified Sample.uploads [Sample.title; Sample.doc]
              no_maps TestHost.empty) as [[m|] w'] eqn:Hdec;
    [|vm_compute in Hdec; discriminate].
  pose proof (f_equal snd Hdec) as Hw. vm_compute in Hw. subst w'.
  cbn [answer_of] in Hend.
  destruct (Hmaps _ _ Hend) as (flds & fls & H1 & H2 & H3 & H4 & H5 & H6).
  eexists _, flds, fls. split_and!; [exact Hend|done..| |].
  - apply H5. by left.
  - destruct (H6 (lit "file") (lit "doc.pdf") (lit "application/pdf")
                (lit "%PDF-1.4" ++ CRLFCRLF ++ lit "stream")) as (r & Hr & _ & Hsz).
    + right. by left.
    + by exists r.
Defined.


Lemma value_of_two_lines :
  skipped Sample.two_lines = false ∧
  includes (headerStr_of Sample.two_lines) (lit "filename=") = false ∧
  match_quoted (lit "name=") (headerStr_of Sample.two_lines) = Some (lit "x") ∧
  bodyContent_of Sample.two_lines = lit "ab" ++ CRLF ++ lit "cd" ∧
  process_part Sample.uploads no_maps Sample.two_lines TestHost.empty
    = Ok (set_field no_maps (lit "x") (lit "ab")) TestHost.empty.
Proof.
  assert (skipped Sample.two_lines = false) as Hs by run.
  assert (includes (headerStr_of Sample.two_lines) (lit "filename=") = false)
    as Hf by run.
  assert (match_quoted (lit "name=") (headerStr_of Sample.two_lines)
          = Some (lit "x")) as Hn by run.
  assert (bodyContent_of Sample.two_lines = lit "ab" ++ CRLF ++ lit "cd")
    as Hb by run.
  split_and!; [done..|].
  destruct (value_is_body_cut_at_last_terminator Sample.uploads no_maps
              Sample.two_lines TestHost.empty Hs) as (Hfield & _ & _ & Hcut & _).
  rewrite (Hfield (lit "x") Hf Hn), Hb.
  by rewrite (Hcut (lit "ab") (lit "cd") eq_refl).
Defined.


Lemma missing_boundary_rejected_witness :
  (∀ ct pre c post,
     content_type Sample.without_boundary = Some ct →
     ct = pre ++ lit "boundary=" ++ c :: post → c = SEMI) ∧
  ∀ data w,
    uploadMiddleware Sample.uploads Sample.without_boundary data w
    = (Respond 400 (lit "Error processing form data"), w : TestHost.world).
Proof.
  assert (∀ ct pre c post,
            content_type Sample.without_boundary = Some ct →
            ct = pre ++ lit "boundary=" ++ c :: post → c = SEMI) as Hno.
  { intros ct pre c post [= <-]. apply match_boundary_none. run. }
  split; [done|]. intros data w.
  destruct (missing_boundary_rejected Sample.uploads Sample.without_boundary
              data w Hno) as (_ & _ & Hmw).
  by apply (Hmw (lit "multipart/form-data")).
Defined.


Lemma exception_aborts_decode_witness :
  split (encode Sample.XYZ [Sample.title; Sample.doc]) (delimiter Sample.XYZ)
    = [[]; segment Sample.title] ++ segment Sample.doc :: [closing] ∧
  for_of [[]; segment Sample.title] (process_part Sample.uploads) no_maps
    Sample.locked
    = Ok (set_field no_maps (lit "title") (lit "Algoritmi EKG")) Sample.locked ∧
  process_part Sample.uploads
    (set_field no_maps (lit "title") (lit "Algoritmi EKG"))
    (segment Sample.doc) Sample.locked
    = Throw FsError Sample.locked_after ∧
  on_end Sample.uploads Sample.form_XYZ
    (encode Sample.XYZ [Sample.title; Sample.doc]) Sample.locked
    = (Respond 400 (lit "Error processing form data"), Sample.locked_after).
Proof.
  assert (content_type Sample.form_XYZ ≫= match_boundary
          = Some Sample.groups_XYZ) as Hg by run.
  assert (split (encode Sample.XYZ [Sample.title; Sample.doc])
            (lit "--" ++ interpolate (or_else Sample.groups_XYZ.1
                                              Sample.groups_XYZ.2))
          = [[]; segment Sample.title] ++ segment Sample.doc :: [closing])
    as Hsplit by run.
  assert (for_of [[]; segment Sample.title] (process_part Sample.uploads) no_maps
            Sample.locked
          = Ok (set_field no_maps (lit "title") (lit "Algoritmi EKG"))
              Sample.locked) as Hpre by run.
  assert (process_part Sample.uploads
            (set_field no_maps (lit "title") (lit "Algoritmi EKG"))
            (segment Sample.doc) Sample.locked
          = Throw FsError Sample.locked_after) as Hp by run.
  split_and!; [exact Hsplit|done..|].
  destruct (exception_aborts_decode Sample.uploads Sample.form_XYZ
              (encode Sample.XYZ [Sample.title; Sample.doc]) Sample.locked)
    as [Hcatch Hthrow].
  apply (Hcatch FsError Sample.locked_after).
  exact (Hthrow _ _ _ _ _ _ _ _ Hg Hsplit Hpre Hp).
Defined.

Lemma part_without_attributes_ignored_witness :
  ¬ has_attribute (lit "filename=") (headerStr_of Sample.bare) ∧
  ¬ has_attribute (lit "name=") (headerStr_of Sample.bare) ∧
  process_part Sample.uploads no_maps Sample.bare TestHost.empty
    = Ok no_maps TestHost.empty.
Proof.
  assert (¬ has_attribute (lit "filename=") (headerStr_of Sample.bare)) as H1.
  { apply no_attribute. run. }
  assert (¬ has_attribute (lit "name=") (headerStr_of Sample.bare)) as H2.
  { apply no_attribute. run. }
  split_and!; [done..|].
  exact (proj1 (part_without_attributes_ignored Sample.uploads no_maps
                  Sample.bare TestHost.empty H1 H2)).
Defined.

Lemma unquoted_filename_drops_part_witness :
  includes (headerStr_of Sample.unquoted) (lit "filename=") = true ∧
  ¬ has_attribute (lit "filename=") (headerStr_of Sample.unquoted) ∧
  match_quoted (lit "name=") (headerStr_of Sample.unquoted) = Some (lit "file") ∧
  process_part Sample.uploads no_maps Sample.unquoted TestHost.empty
    = Ok no_maps TestHost.empty.
Proof.
  assert (includes (headerStr_of Sample.unquoted) (lit "filename=") = true)
    as H1 by run.
  assert (¬ has_attribute (lit "filename=") (headerStr_of Sample.unquoted)) as H2.
  { apply no_attribute. run. }
  split_and!; [done..|run|].
  exact (unquoted_filename_drops_part Sample.uploads no_maps Sample.unquoted
           TestHost.empty H1 H2).
Defined.

Lemma body_without_terminator_decodes_empty_witness :
  skipped Sample.unterminated = false ∧
  bodyContent_of Sample.unterminated = lit "abc" ∧
  includes (bodyContent_of Sample.unterminated) CRLF = false ∧
  process_part Sample.uploads no_maps Sample.unterminated TestHost.empty
    = Ok {| files := ∅; fields := obj_set ∅ (lit "x") [] |} TestHost.empty ∧
  skipped Sample.unterminated_file = false ∧
  includes (bodyContent_of Sample.unterminated_file) CRLF = false ∧
  ∃ m,
    process_part Sample.uploads no_maps Sample.unterminated_file TestHost.empty
    = Ok m {| TestHost.written :=
                [(Sample.uploads ++ lit "/" ++ TestHost.hex 16 0 ++ lit ".pdf", [])];
              TestHost.counter := 1;
              TestHost.readonly := [] |} ∧
    (File.size <$> files m !! lit "doc.pdf") = Some 0.
Proof.
  assert (skipped Sample.unterminated = false) as Hs by run.
  assert (includes (bodyContent_of Sample.unterminated) CRLF = false) as Hb by run.
  assert (skipped Sample.unterminated_file = false) as Hs' by run.
  assert (includes (bodyContent_of Sample.unterminated_file) CRLF = false)
    as Hb' by run.
  split_and!; [done|run|done| |done..|].
  - destruct (body_without_terminator_decodes_empty Sample.uploads no_maps
                Sample.unterminated TestHost.empty Hs Hb) as [Hfield _].
    apply Hfield; run.
  - destruct (body_without_terminator_decodes_empty Sample.uploads no_maps
                Sample.unterminated_file TestHost.empty Hs' Hb') as [_ Hfile].
    eexists. rewrite (Hfile (lit "doc.pdf")) by run. split; run.
Defined.

